(** * pico-303 firmware: UIManager (rotary encoder, button, parameter store)

    A shallow embedding of [firmware/pico-303/UIManager.cpp] and
    [UIManager.h], and the properties of the encoder pipeline, the
    debouncer, the Menu/Edit state machine and the parameter store.

    Fixed-width C++ integers are integers of [Z] with the conversions
    written out; the two hardware capabilities the code uses,
    [digitalRead] and [millis], are arguments of the functions that call
    them; the change callback is a trace of its invocations. *)

From Stdlib Require Import ZArith Bool Lia String.
From stdpp Require Import base list.
Import ListNotations.

Local Open Scope Z_scope.

(** ** Fixed-width integers *)

Module CInt.

(** Conversion to [uint8_t]: reduction modulo 2^8. *)
Definition to_uint8 (z : Z) : Z := z mod 256.

(** Conversion to [int8_t]: two's complement wrap-around. *)
Definition to_int8 (z : Z) : Z := (z + 128) mod 256 - 128.

(** Conversion to [int16_t]: two's complement wrap-around. *)
Definition to_int16 (z : Z) : Z := (z + 32768) mod 65536 - 32768.

(** Conversion to [uint32_t]: reduction modulo 2^32. *)
Definition to_uint32 (z : Z) : Z := z mod 4294967296.

Definition is_uint8 (z : Z) : Prop := 0 <= z <= 255.
Definition is_int16 (z : Z) : Prop := -32768 <= z <= 32767.
Definition is_uint32 (z : Z) : Prop := 0 <= z < 4294967296.

End CInt.
Import CInt.

(** ** Data model (UIManager.h) *)

(** [enum UIState]. *)
Inductive UIState : Type :=
  | UI_MENU   (* browsing parameters *)
  | UI_EDIT.  (* editing selected parameter *)

(** [struct Parameter] ([Parameter] is reserved in Rocq, hence [Param]); the
    four numeric fields are [uint8_t]. *)
Record Param : Type := mkParameter {
  name : string;
  cc : Z;
  value : Z;
  minVal : Z;
  maxVal : Z
}.

(** Arduino's [PinStatus]: [LOW] is [false], [HIGH] is [true]. *)
Definition LOW : bool := false.
Definition HIGH : bool := true.

(** The members of [class UIManager], the static ones and the function-local
    static [stepAccumulator] of [handleEncoderInterrupt] included.
    [parameterCallback] records whether the function pointer is non-null. *)
Record UIManager : Type := mkUIManager {
  state : UIState;
  currentParamIndex : Z;          (* uint8_t *)
  lastButtonState : bool;
  lastButtonTime : Z;             (* uint32_t *)
  parameterCallback : bool;
  lastEncoderState : Z;           (* volatile uint8_t *)
  lastEncoderTime : Z;            (* volatile uint32_t *)
  encoderDelta : Z;               (* volatile int16_t *)
  stepAccumulator : Z;            (* static int8_t *)
  parameters : list Param
}.

(** [kQuadratureTable[previous state][current state]]. *)
Definition kQuadratureTable : list (list Z) :=
  [ [ 0;  1; -1;  0];    (* 00 -> 00, 01, 10, 11 *)
    [-1;  0;  0;  1];    (* 01 -> 00, 01, 10, 11 *)
    [ 1;  0;  0; -1];    (* 10 -> 00, 01, 10, 11 *)
    [ 0; -1;  1;  0] ].  (* 11 -> 00, 01, 10, 11 *)

(** The initial contents of [UIManager::parameters]. *)
Definition initialParameters : list Param :=
  [ mkParameter "Volume"      7 76 0 127;
    mkParameter "Wave "      18  0 0 127;
    mkParameter "Pitch"      16 64 0 127;
    mkParameter "Cutoff"     74 64 0 127;
    mkParameter "Res"        71  0 0 127;
    mkParameter "Env"        17 64 0 127;
    mkParameter "Decay"      75 64 0 127;
    mkParameter "Accent"     15 64 0 127;
    mkParameter "SubOsc"     14  0 0 127;
    mkParameter "Dist On"    80  0 0 127;
    mkParameter "Dist Mode"  77  0 0 4;
    mkParameter "Dist Amt"   78  0 0 127;
    mkParameter "Dist Mix"   79  0 0 127;
    mkParameter "Dly Time"   81 32 0 127;
    mkParameter "Dly Fdbk"   82 64 0 127;
    mkParameter "Dly Sync"   86 32 0 127;
    mkParameter "Dly L Div"  91 32 0 127;
    mkParameter "Dly R Div"  92 32 0 127;
    mkParameter "Dly L Mod"  93  0 0 2;
    mkParameter "Dly R Mod"  94  0 0 2;
    mkParameter "Dly Mix"    83 38 0 127;
    mkParameter "Glide"     100 64 0 127 ].

(** [paramCount = sizeof(parameters) / sizeof(Parameter)]. *)
Definition paramCount (u : UIManager) : Z := Z.of_nat (length (parameters u)).

(** The static initialisers and the constructor [UIManager::UIManager()]. *)
Definition initial : UIManager :=
  {| state := UI_MENU;
     currentParamIndex := 0;
     lastButtonState := false;
     lastButtonTime := 0;
     parameterCallback := false;
     lastEncoderState := 0;
     lastEncoderTime := 0;
     encoderDelta := 0;
     stepAccumulator := 0;
     parameters := initialParameters |}.

(** Assignment to one member; the other members keep their values. *)
Definition set_state (v : UIState) (u : UIManager) : UIManager :=
  {| state := v;
     currentParamIndex := currentParamIndex u;
     lastButtonState := lastButtonState u;
     lastButtonTime := lastButtonTime u;
     parameterCallback := parameterCallback u;
     lastEncoderState := lastEncoderState u;
     lastEncoderTime := lastEncoderTime u;
     encoderDelta := encoderDelta u;
     stepAccumulator := stepAccumulator u;
     parameters := parameters u |}.

Definition set_currentParamIndex (v : Z) (u : UIManager) : UIManager :=
  {| state := state u;
     currentParamIndex := v;
     lastButtonState := lastButtonState u;
     lastButtonTime := lastButtonTime u;
     parameterCallback := parameterCallback u;
     lastEncoderState := lastEncoderState u;
     lastEncoderTime := lastEncoderTime u;
     encoderDelta := encoderDelta u;
     stepAccumulator := stepAccumulator u;
     parameters := parameters u |}.

Definition set_lastButtonState (v : bool) (u : UIManager) : UIManager :=
  {| state := state u;
     currentParamIndex := currentParamIndex u;
     lastButtonState := v;
     lastButtonTime := lastButtonTime u;
     parameterCallback := parameterCallback u;
     lastEncoderState := lastEncoderState u;
     lastEncoderTime := lastEncoderTime u;
     encoderDelta := encoderDelta u;
     stepAccumulator := stepAccumulator u;
     parameters := parameters u |}.

Definition set_lastButtonTime (v : Z) (u : UIManager) : UIManager :=
  {| state := state u;
     currentParamIndex := currentParamIndex u;
     lastButtonState := lastButtonState u;
     lastButtonTime := v;
     parameterCallback := parameterCallback u;
     lastEncoderState := lastEncoderState u;
     lastEncoderTime := lastEncoderTime u;
     encoderDelta := encoderDelta u;
     stepAccumulator := stepAccumulator u;
     parameters := parameters u |}.

Definition set_parameterCallback (v : bool) (u : UIManager) : UIManager :=
  {| state := state u;
     currentParamIndex := currentParamIndex u;
     lastButtonState := lastButtonState u;
     lastButtonTime := lastButtonTime u;
     parameterCallback := v;
     lastEncoderState := lastEncoderState u;
     lastEncoderTime := lastEncoderTime u;
     encoderDelta := encoderDelta u;
     stepAccumulator := stepAccumulator u;
     parameters := parameters u |}.

Definition set_lastEncoderState (v : Z) (u : UIManager) : UIManager :=
  {| state := state u;
     currentParamIndex := currentParamIndex u;
     lastButtonState := lastButtonState u;
     lastButtonTime := lastButtonTime u;
     parameterCallback := parameterCallback u;
     lastEncoderState := v;
     lastEncoderTime := lastEncoderTime u;
     encoderDelta := encoderDelta u;
     stepAccumulator := stepAccumulator u;
     parameters := parameters u |}.

Definition set_lastEncoderTime (v : Z) (u : UIManager) : UIManager :=
  {| state := state u;
     currentParamIndex := currentParamIndex u;
     lastButtonState := lastButtonState u;
     lastButtonTime := lastButtonTime u;
     parameterCallback := parameterCallback u;
     lastEncoderState := lastEncoderState u;
     lastEncoderTime := v;
     encoderDelta := encoderDelta u;
     stepAccumulator := stepAccumulator u;
     parameters := parameters u |}.

Definition set_encoderDelta (v : Z) (u : UIManager) : UIManager :=
  {| state := state u;
     currentParamIndex := currentParamIndex u;
     lastButtonState := lastButtonState u;
     lastButtonTime := lastButtonTime u;
     parameterCallback := parameterCallback u;
     lastEncoderState := lastEncoderState u;
     lastEncoderTime := lastEncoderTime u;
     encoderDelta := v;
     stepAccumulator := stepAccumulator u;
     parameters := parameters u |}.

Definition set_stepAccumulator (v : Z) (u : UIManager) : UIManager :=
  {| state := state u;
     currentParamIndex := currentParamIndex u;
     lastButtonState := lastButtonState u;
     lastButtonTime := lastButtonTime u;
     parameterCallback := parameterCallback u;
     lastEncoderState := lastEncoderState u;
     lastEncoderTime := lastEncoderTime u;
     encoderDelta := encoderDelta u;
     stepAccumulator := v;
     parameters := parameters u |}.

Definition set_parameters (v : list Param) (u : UIManager) : UIManager :=
  {| state := state u;
     currentParamIndex := currentParamIndex u;
     lastButtonState := lastButtonState u;
     lastButtonTime := lastButtonTime u;
     parameterCallback := parameterCallback u;
     lastEncoderState := lastEncoderState u;
     lastEncoderTime := lastEncoderTime u;
     encoderDelta := encoderDelta u;
     stepAccumulator := stepAccumulator u;
     parameters := v |}.

(** [setParameterCallback] with a non-null callback. *)
Definition setParameterCallback (u : UIManager) : UIManager :=
  set_parameterCallback true u.

(** [(a << 1) | b] on the two pin levels. *)
Definition pinCode (a b : bool) : Z :=
  Z.lor (Z.shiftl (Z.b2z a) 1) (Z.b2z b).

(** [UIManager::begin]: [a], [b], [sw] are the levels read on the three
    pins and [now] what [millis()] returns (both calls of [begin] read the
    same millisecond here). Pin configuration and interrupt attachment
    have no effect on the members. *)
Definition begin (a b sw : bool) (now : Z) (u : UIManager) : UIManager :=
  let u := set_lastEncoderState (pinCode a b) u in
  let u := set_lastEncoderTime now u in
  let u := set_lastButtonState sw u in
  set_lastButtonTime now u.

(** ** The interrupt handler *)

(** [kQuadratureTable[p][c]]. Both indices are 2-bit codes in the program
    (see [ui_inv]); outside the table the C++ access is undefined,
    and the embedding reads 0 there. *)
Definition quadrature (p c : Z) : Z :=
  match kQuadratureTable !! Z.to_nat p with
  | Some row => if (0 <=? p) && (0 <=? c) then default 0 (row !! Z.to_nat c) else 0
  | None => 0
  end.

(** [UIManager::calculateAcceleration]. *)
Definition calculateAcceleration (deltaTime : Z) : Z :=
  if deltaTime <? 15 then 4        (* very fast *)
  else if deltaTime <? 30 then 2   (* fast *)
  else 1.                          (* normal/slow *)

(** [UIManager::handleEncoderInterrupt], statement by statement; [a], [b]
    are the levels read on [pinA], [pinB], and [now] is what [millis()]
    returns. *)
Definition handleEncoderInterrupt (a b : bool) (now : Z) (u : UIManager) : UIManager :=
  let currentState := pinCode a b in
  let rawDelta := quadrature (lastEncoderState u) currentState in
  let u := set_lastEncoderState currentState u in
  if rawDelta =? 0 then u
  else
    let u := set_stepAccumulator (to_int8 (stepAccumulator u + rawDelta)) u in
    if Z.abs (stepAccumulator u) >=? 2 then
      let direction := if stepAccumulator u >? 0 then 1 else -1 in
      let u := set_stepAccumulator 0 u in
      let deltaTime := to_uint32 (now - lastEncoderTime u) in
      let u := set_lastEncoderTime now u in
      let multiplier := calculateAcceleration deltaTime in
      set_encoderDelta (to_int16 (encoderDelta u + direction * multiplier)) u
    else u.

(** A run of the handler over the successive readings [(a, b, now)]. *)
Definition PinSample : Type := (bool * bool * Z)%type.

Definition interrupts_run (ins : list PinSample) (u : UIManager) : UIManager :=
  foldl (fun u '(a, b, now) => handleEncoderInterrupt a b now u) u ins.

(** ** The polling loop *)

(** [UIManager::readButton]; [sw] is the level read on [pinSW] and [now]
    what [millis()] returns. The result is the returned flag and the
    manager after the call. *)
Definition readButton (sw : bool) (now : Z) (u : UIManager) : bool * UIManager :=
  let currentState := sw in
  (* button is active low (pressed = LOW) *)
  if Bool.eqb currentState LOW && Bool.eqb (lastButtonState u) HIGH then
    if to_uint32 (now - lastButtonTime u) >? 100 then
      (true, set_lastButtonTime now (set_lastButtonState currentState u))
    else (false, u)
  else if Bool.eqb currentState HIGH && Bool.eqb (lastButtonState u) LOW then
    if to_uint32 (now - lastButtonTime u) >? 100 then
      (false, set_lastButtonTime now (set_lastButtonState currentState u))
    else (false, u)
  else (false, u).

(** The critical section at the head of [update]:
    [noInterrupts(); delta = encoderDelta; encoderDelta = 0; interrupts();].
    The handler cannot run inside it, so it is one step. *)
Definition drainEncoderDelta (u : UIManager) : Z * UIManager :=
  (encoderDelta u, set_encoderDelta 0 u).

(** [parameters[i]] for a [uint8_t] index; [None] outside the array. *)
Definition parameterAt (i : Z) (ps : list Param) : option Param :=
  if i <? 0 then None else ps !! Z.to_nat i.

(** [param.value = v] on a [Parameter&]. *)
Definition set_value (v : Z) (p : Param) : Param :=
  {| name := name p; cc := cc p; value := v; minVal := minVal p; maxVal := maxVal p |}.

(** What one call of [update] does: the manager after it, the invocations
    of [parameterCallback] as pairs [(cc, value)] in order, and the returned
    [needsRedraw]. *)
Record Outcome : Type := mkOutcome {
  after : UIManager;
  notified : list (Z * Z);
  needsRedraw : bool
}.

(** The menu branch of [update]: the new [currentParamIndex]. *)
Definition navigate (paramCount currentParamIndex delta : Z) : Z :=
  let newIndex := to_int16 (currentParamIndex + delta) in
  (* wrap around *)
  let newIndex :=
    if newIndex <? 0 then to_int16 (paramCount - 1)
    else if newIndex >=? paramCount then 0
    else newIndex in
  to_uint8 newIndex.

(** The edit branch of [update]: the new [param.value]. *)
Definition edit (param : Param) (delta : Z) : Z :=
  let newValue := to_int16 (value param + delta) in
  (* clamp to min/max *)
  let newValue :=
    if newValue <? minVal param then minVal param
    else if newValue >? maxVal param then maxVal param
    else newValue in
  to_uint8 newValue.

(** The toggle between menu and edit mode. *)
Definition toggle (s : UIState) : UIState :=
  match s with UI_MENU => UI_EDIT | UI_EDIT => UI_MENU end.

(** The block of [update] under "handle encoder rotation", after the drain:
    the manager, the callback invocations and [needsRedraw] at its end.
    [None] stands for the undefined behaviour of
    [parameters[currentParamIndex]] outside the array, which [update_defined]
    shows not to happen. *)
Definition handleRotation (delta : Z) (u : UIManager)
  : option (UIManager * list (Z * Z) * bool) :=
  let needsRedraw := false in
  if delta =? 0 then Some (u, [], needsRedraw)
  else
    let needsRedraw := true in
    match state u with
    | UI_MENU =>
        (* navigate menu *)
        Some (set_currentParamIndex
                (navigate (paramCount u) (currentParamIndex u) delta) u,
              [], needsRedraw)
    | UI_EDIT =>
        (* edit parameter value *)
        match parameterAt (currentParamIndex u) (parameters u) with
        | None => None
        | Some param =>
            let param := set_value (edit param delta) param in
            let u := set_parameters
                       (<[Z.to_nat (currentParamIndex u) := param]> (parameters u)) u in
            (* trigger callback if parameter changed *)
            Some (u,
                  if parameterCallback u then [(cc param, value param)] else [],
                  needsRedraw)
        end
    end.

(** [UIManager::update]: the drain, the rotation block, then the block
    under "handle button press". *)
Definition update (sw : bool) (now : Z) (u : UIManager) : option Outcome :=
  let '(delta, u) := drainEncoderDelta u in
  match handleRotation delta u with
  | None => None
  | Some (u, calls, needsRedraw) =>
      let '(pressed, u) := readButton sw now u in
      if pressed then
        (* toggle between menu and edit mode *)
        Some {| after := set_state (toggle (state u)) u;
                notified := calls;
                needsRedraw := true |}
      else
        Some {| after := u; notified := calls; needsRedraw := needsRedraw |}
  end.

(** The loop of [updateParameterValue]: [n] iterations are left, from
    index [i]. *)
Fixpoint updateParameterValue_from (n i : nat) (cc' value' : Z) (ps : list Param)
  : list Param :=
  match n with
  | O => ps
  | S n' =>
      match ps !! i with
      | Some p =>
          if cc p =? cc' then <[i := set_value value' p]> ps   (* break *)
          else updateParameterValue_from n' (S i) cc' value' ps
      | None => ps
      end
  end.

(** [UIManager::updateParameterValue]. *)
Definition updateParameterValue (cc' value' : Z) (u : UIManager) : UIManager :=
  set_parameters
    (updateParameterValue_from (length (parameters u)) 0 cc' value' (parameters u)) u.

(** ** Invariant of the manager *)

(** The ranges the C++ types and the code maintain: the members hold values
    of their types, the 2-bit encoder code and the half-detent accumulator
    stay small, and the selected index stays inside the array. *)
Record ui_inv (u : UIManager) : Prop := mk_ui_inv {
  inv_count : 0 < paramCount u <= 255;
  inv_index : 0 <= currentParamIndex u < paramCount u;
  inv_delta : is_int16 (encoderDelta u);
  inv_code : 0 <= lastEncoderState u < 4;
  inv_acc : -1 <= stepAccumulator u <= 1
}.

(** The bounds invariant of one parameter and of the store. *)
Definition in_bounds (p : Param) : Prop := minVal p <= value p <= maxVal p.

Definition store_inv (ps : list Param) : Prop := Forall in_bounds ps.

(** The fields of a parameter hold [uint8_t] values. *)
Definition param_uint8 (p : Param) : Prop :=
  is_uint8 (cc p) /\ is_uint8 (value p) /\ is_uint8 (minVal p) /\ is_uint8 (maxVal p).

(** ** The specification's vocabulary *)

(** Two 2-bit codes are adjacent in the Gray cycle 00, 01, 11, 10 when
    they differ in exactly one bit. *)
Definition gray_adjacent (p c : Z) : bool :=
  (Z.lxor p c =? 1) || (Z.lxor p c =? 2).

(** [clamp(x, lo, hi)]. *)
Definition clamp (x lo hi : Z) : Z :=
  if x <? lo then lo else if x >? hi then hi else x.

(** Elapsed time between two readings of the wrapping millisecond clock. *)
Definition elapsed (since now : Z) : Z := to_uint32 (now - since).

(** The first parameter, in store order, with a given [cc]. *)
Definition findByCC (cc' : Z) (ps : list Param) : option (nat * Param) :=
  list_find (fun p => cc p = cc') ps.

(** The Debouncer of the specification: a stable level ([true] is pressed)
    and the timestamp of the last committed transition. On a poll with the
    raw level [raw] at time [now]: if [raw] differs from the stable level and
    more than 100 time-units passed since the last transition, commit, and
    emit a press event when the new stable level is pressed. *)
Record Debouncer : Type := mkDebouncer {
  stableLevel : bool;
  lastTransitionTimestamp : Z
}.

Definition debounce (raw : bool) (now : Z) (d : Debouncer) : bool * Debouncer :=
  if negb (Bool.eqb raw (stableLevel d))
     && (100 <? elapsed (lastTransitionTimestamp d) now)
  then (raw, {| stableLevel := raw; lastTransitionTimestamp := now |})
  else (false, d).

(** The debouncer state held by the manager; the pin is active low. *)
Definition debouncer_of (u : UIManager) : Debouncer :=
  {| stableLevel := negb (lastButtonState u);
     lastTransitionTimestamp := lastButtonTime u |}.

(** Successive polls of the button alone, with the emitted flags. *)
Fixpoint readButton_run (polls : list (bool * Z)) (u : UIManager)
  : list bool * UIManager :=
  match polls with
  | [] => ([], u)
  | (sw, now) :: rest =>
      let '(pressed, u) := readButton sw now u in
      let '(events, u) := readButton_run rest u in
      (pressed :: events, u)
  end.

Fixpoint debounce_run (polls : list (bool * Z)) (d : Debouncer)
  : list bool * Debouncer :=
  match polls with
  | [] => ([], d)
  | (raw, now) :: rest =>
      let '(pressed, d) := debounce raw now d in
      let '(events, d) := debounce_run rest d in
      (pressed :: events, d)
  end.

(** A qualifying falling edge: the stable level is released, the raw
    level is pressed, and more than 100 time-units passed. *)
Definition qualifying_press (sw : bool) (now : Z) (u : UIManager) : bool :=
  Bool.eqb sw LOW && Bool.eqb (lastButtonState u) HIGH
  && (100 <? elapsed (lastButtonTime u) now).

(** Whether a poll commits a transition of the stable level. *)
Definition commits (sw : bool) (now : Z) (u : UIManager) : bool :=
  negb (Bool.eqb sw (lastButtonState u)) && (100 <? elapsed (lastButtonTime u) now).

(** The block under "handle button press", applied to the result of the
    rotation block. *)
Definition buttonBlock (sw : bool) (now : Z) (u : UIManager)
    (calls : list (Z * Z)) (redraw : bool) : Outcome :=
  let u' := (readButton sw now u).2 in
  if qualifying_press sw now u
  then {| after := set_state (toggle (state u')) u'; notified := calls; needsRedraw := true |}
  else {| after := u'; notified := calls; needsRedraw := redraw |}.

(** What one call of the handler adds to [encoderDelta]: the
    [direction * multiplier] of the detent it emits, and 0 when it emits
    none. *)
Definition addition (a b : bool) (now : Z) (u : UIManager) : Z :=
  let rawDelta := quadrature (lastEncoderState u) (pinCode a b) in
  let acc := to_int8 (stepAccumulator u + rawDelta) in
  if (rawDelta =? 0) || (Z.abs acc <? 2) then 0
  else (if acc >? 0 then 1 else -1)
       * calculateAcceleration (elapsed (lastEncoderTime u) now).

(** The additions of a run of the handler, in order. *)
Fixpoint additions (ins : list PinSample) (u : UIManager) : list Z :=
  match ins with
  | [] => []
  | (a, b, now) :: rest =>
      addition a b now u :: additions rest (handleEncoderInterrupt a b now u)
  end.

Definition total (ds : list Z) : Z := foldr Z.add 0 ds.

(** ** Scenarios *)

(** The manager after [update], for chaining calls in a scenario. *)
Definition polled (sw : bool) (now : Z) (u : UIManager) : UIManager :=
  match update sw now u with
  | Some o => after o
  | None => u
  end.

(** One turn of the encoder through the codes 01, 11, 10, 00 (two detents
    clockwise), read at time [now]. *)
Definition clockwise (now : Z) : list PinSample :=
  [ (false, true, now); (true, true, now); (true, false, now); (false, false, now) ].

Definition clockwise_turns (n : nat) (now : Z) : list PinSample :=
  concat (replicate n (clockwise now)).

(** The manager after [begin] with the encoder at code 00 and the button
    released, at time 0. *)
Definition started : UIManager := begin false false HIGH 0 initial.

(** 8192 fast clockwise detents between two polls. *)
Definition overrun_samples : list PinSample := clockwise_turns 4096 0.

Definition overrun : UIManager := interrupts_run overrun_samples (polled HIGH 0 started).

(** One fast detent anticlockwise in menu mode: a pending delta of -2. *)
Definition two_back : UIManager :=
  interrupts_run [ (true, false, 20); (true, true, 20) ] started.

(** Volume set to its maximum from outside, a callback registered, the
    button pressed (edit mode), then one slow detent clockwise. *)
Definition at_maximum : UIManager :=
  interrupts_run [ (false, true, 150); (true, true, 150) ]
    (polled LOW 101 (updateParameterValue 7 127 (setParameterCallback started))).

(** Edit mode on Volume (value 76), then 8193 detents clockwise before the
    next poll: one slow, 8191 fast, one at medium speed. *)
Definition far_turn : UIManager :=
  interrupts_run (clockwise_turns 4096 101 ++ [ (false, true, 121); (true, true, 121) ])
    (polled LOW 101 (setParameterCallback started)).

(** Volume set to 125 from outside, a callback registered, the button
    pressed (edit mode), then four detents clockwise, one slow, one fast,
    one at medium speed and one slow: a pending delta of 1 + 4 + 2 + 1. *)
Definition near_maximum : UIManager :=
  interrupts_run
    (clockwise 150
     ++ [ (false, true, 170); (true, true, 170); (true, false, 210); (false, false, 210) ])
    (polled LOW 101 (updateParameterValue 7 125 (setParameterCallback started))).

(** ** The rest of the interface *)

(** [UIManager::getParameter]; [None] stands for a read outside the
    array, which needs an empty array. *)
Definition getParameter (index : Z) (u : UIManager) : option Param :=
  let index := if index >=? paramCount u then 0 (* safety fallback *) else index in
  parameterAt index (parameters u).

(** [getState], [getCurrentParamIndex] and [getParameterCount]. *)
Definition getState (u : UIManager) : UIState := state u.
Definition getCurrentParamIndex (u : UIManager) : Z := currentParamIndex u.
Definition getParameterCount (u : UIManager) : Z := paramCount u.

(** [update] from the end of its critical section on, with the drained
    [delta] in hand: the handler can run again from here. *)
Definition finishUpdate (sw : bool) (now : Z) (delta : Z) (u : UIManager)
  : option Outcome :=
  match handleRotation delta u with
  | None => None
  | Some (u, calls, needsRedraw) =>
      let '(pressed, u) := readButton sw now u in
      if pressed then
        Some {| after := set_state (toggle (state u)) u;
                notified := calls;
                needsRedraw := true |}
      else
        Some {| after := u; notified := calls; needsRedraw := needsRedraw |}
  end.

(** The outcome of [update] with one more handler call on its manager. *)
Definition interrupted (a b : bool) (t : Z) (o : Outcome) : Outcome :=
  {| after := handleEncoderInterrupt a b t (after o);
     notified := notified o;
     needsRedraw := needsRedraw o |}.

(** The calls the firmware makes on a manager, with what they read from
    the pins and the clock. *)
Inductive Op : Type :=
  | OpBegin (a b sw : bool) (now : Z)
  | OpInterrupt (a b : bool) (now : Z)
  | OpUpdate (sw : bool) (now : Z)
  | OpUpdateParameterValue (cc' value' : Z)
  | OpSetParameterCallback.

Definition apply_op (u : UIManager) (op : Op) : UIManager :=
  match op with
  | OpBegin a b sw now => begin a b sw now u
  | OpInterrupt a b now => handleEncoderInterrupt a b now u
  | OpUpdate sw now => polled sw now u
  | OpUpdateParameterValue cc' value' => updateParameterValue cc' value' u
  | OpSetParameterCallback => setParameterCallback u
  end.

Definition run_ops (ops : list Op) (u : UIManager) : UIManager :=
  foldl apply_op u ops.

(** Whether a call is an external value injection. *)
Definition is_injection (op : Op) : bool :=
  match op with OpUpdateParameterValue _ _ => true | _ => false end.

(** What never changes in a parameter. *)
Definition identity_of (p : Param) : string * Z * Z * Z :=
  (name p, cc p, minVal p, maxVal p).

(** * Properties *)

(** ** Fixed-width conversions *)

Lemma to_int16_range z : is_int16 (to_int16 z).
Proof. unfold is_int16, to_int16. pose proof (Z.mod_pos_bound (z + 32768) 65536). lia. Qed.

Lemma to_int16_id z : is_int16 z -> to_int16 z = z.
Proof. unfold is_int16, to_int16. intros H. rewrite Z.mod_small; lia. Qed.

(** [int16_t] addition is addition modulo 2^16: wrapping an operand
    first changes nothing. *)
Lemma to_int16_add_l a b : to_int16 (to_int16 a + b) = to_int16 (a + b).
Proof.
  unfold to_int16.
  replace ((a + 32768) mod 65536 - 32768 + b + 32768)
    with ((a + 32768) mod 65536 + b) by lia.
  replace (a + b + 32768) with ((a + 32768) + b) by lia.
  rewrite Zplus_mod_idemp_l. reflexivity.
Qed.

Lemma to_int8_id z : -128 <= z <= 127 -> to_int8 z = z.
Proof. unfold to_int8. intros H. rewrite Z.mod_small; lia. Qed.

Lemma to_uint8_id z : is_uint8 z -> to_uint8 z = z.
Proof. unfold is_uint8, to_uint8. intros H. rewrite Z.mod_small; lia. Qed.

Lemma to_uint32_range z : is_uint32 (to_uint32 z).
Proof. unfold is_uint32, to_uint32. apply Z.mod_pos_bound. lia. Qed.


(** ** Quadrature decoder *)

Lemma pinCode_range a b : 0 <= pinCode a b < 4.
Proof. destruct a, b; vm_compute; split; congruence. Qed.

Lemma small_code_cases p : 0 <= p < 4 -> p = 0 \/ p = 1 \/ p = 2 \/ p = 3.
Proof. lia. Qed.

Lemma quadrature_outside p c : ~ (0 <= p < 4 /\ 0 <= c < 4) -> quadrature p c = 0.
Proof.
  intros Hout. unfold quadrature.
  destruct (kQuadratureTable !! Z.to_nat p) as [row|] eqn:Hrow; [|reflexivity].
  destruct (Z.leb_spec 0 p) as [Hp|Hp]; [|reflexivity].
  destruct (Z.leb_spec 0 c) as [Hc|Hc]; [|reflexivity].
  simpl.
  assert (Hlt : (Z.to_nat p < 4)%nat).
  { apply lookup_lt_Some in Hrow. exact Hrow. }
  assert (Hp4 : p < 4) by lia.
  assert (Hc4 : 4 <= c) by lia.
  destruct (small_code_cases p ltac:(lia)) as [-> | [-> | [-> | ->]]];
    vm_compute in Hrow; injection Hrow as <-;
    rewrite (lookup_ge_None_2 _ (Z.to_nat c)); simpl; solve [reflexivity | lia].
Qed.

Lemma quadrature_range p c : -1 <= quadrature p c <= 1.
Proof.
  destruct (decide (0 <= p < 4 /\ 0 <= c < 4)) as [[Hp Hc]|Hout].
  - destruct (small_code_cases p Hp) as [-> | [-> | [-> | ->]]];
      destruct (small_code_cases c Hc) as [-> | [-> | [-> | ->]]];
      vm_compute; split; congruence.
  - rewrite quadrature_outside by exact Hout. lia.
Qed.

(** C4. For each of the 16 pairs (previous, current) of 2-bit pin codes the
    decoder returns the entry of the table with rows 00: 0 +1 -1 0,
    01: -1 0 0 +1, 10: +1 0 0 -1, 11: 0 -1 +1 0; a transition between codes
    that are not adjacent in the Gray cycle (the identities, 00<->11 and
    01<->10) yields 0, an adjacent one a non-zero quarter-step; and on a
    zero quarter-step the handler only records the new code. *)
Theorem quadrature_decoder_table :
  map (fun p => map (quadrature p) [0; 1; 2; 3]) [0; 1; 2; 3]
    = [ [ 0;  1; -1;  0];
        [-1;  0;  0;  1];
        [ 1;  0;  0; -1];
        [ 0; -1;  1;  0] ]
  /\ (forall p c, 0 <= p < 4 -> 0 <= c < 4 ->
        (gray_adjacent p c = false -> quadrature p c = 0)
        /\ (gray_adjacent p c = true -> quadrature p c = 1 \/ quadrature p c = -1))
  /\ (forall a b now u,
        lastEncoderState (handleEncoderInterrupt a b now u) = pinCode a b
        /\ (quadrature (lastEncoderState u) (pinCode a b) = 0 ->
            handleEncoderInterrupt a b now u = set_lastEncoderState (pinCode a b) u)).
Proof.
  split; [reflexivity|]. split.
  - intros p c Hp Hc.
    destruct (small_code_cases p Hp) as [-> | [-> | [-> | ->]]];
      destruct (small_code_cases c Hc) as [-> | [-> | [-> | ->]]];
      vm_compute; split; intros H; solve [reflexivity | discriminate H | auto].
  - intros a b now u. unfold handleEncoderInterrupt.
    destruct (Z.eqb_spec (quadrature (lastEncoderState u) (pinCode a b)) 0) as [Hz|Hnz].
    + split; [reflexivity | intros _; reflexivity].
    + split; [| intros Hz; contradiction].
      cbn [stepAccumulator set_stepAccumulator set_lastEncoderState].
      destruct (Z.abs _ >=? 2); reflexivity.
Qed.

Lemma quadrature_decoder_table_witness :
  gray_adjacent 0 3 = false /\ quadrature 0 3 = 0.
Proof.
  split; [reflexivity|].
  destruct quadrature_decoder_table as (_ & Hadj & _).
  apply (Hadj 0 3); [lia | lia | reflexivity].
Defined.

(** ** Motion accelerator *)

(** C7. For a non-negative elapsed time the multiplier is 4 below 15, 2 from
    15 up to 30 excluded, and 1 from 30 on; 14 gives 4, 15 and 29 give 2,
    30 and 1000 give 1. *)
Theorem calculateAcceleration_thresholds (dt : Z) :
  0 <= dt ->
  (dt < 15 -> calculateAcceleration dt = 4)
  /\ (15 <= dt < 30 -> calculateAcceleration dt = 2)
  /\ (30 <= dt -> calculateAcceleration dt = 1)
  /\ calculateAcceleration 14 = 4
  /\ calculateAcceleration 15 = 2
  /\ calculateAcceleration 29 = 2
  /\ calculateAcceleration 30 = 1
  /\ calculateAcceleration 1000 = 1.
Proof.
  intros _. unfold calculateAcceleration.
  repeat split; try reflexivity; intros H;
    destruct (Z.ltb_spec dt 15); destruct (Z.ltb_spec dt 30); lia.
Qed.

Lemma calculateAcceleration_thresholds_witness :
  0 <= 20 /\ calculateAcceleration 20 = 2.
Proof.
  split; [lia|].
  destruct (calculateAcceleration_thresholds 20 ltac:(lia)) as (_ & H & _).
  apply H. lia.
Defined.

Lemma calculateAcceleration_cases dt :
  calculateAcceleration dt = 1 \/ calculateAcceleration dt = 2
  \/ calculateAcceleration dt = 4.
Proof.
  unfold calculateAcceleration.
  destruct (dt <? 15); [auto|]. destruct (dt <? 30); auto.
Qed.

(** ** The interrupt handler: step accumulator and pending delta *)

(** Reading a member after assignments. *)
Ltac members :=
  cbn [state currentParamIndex lastButtonState lastButtonTime parameterCallback
       lastEncoderState lastEncoderTime encoderDelta stepAccumulator parameters
       set_state set_currentParamIndex set_lastButtonState set_lastButtonTime
       set_parameterCallback set_lastEncoderState set_lastEncoderTime
       set_encoderDelta set_stepAccumulator set_parameters paramCount] in *.

Lemma abs_ge_2 z : (Z.abs z >=? 2) = negb (Z.abs z <? 2).
Proof. destruct (Z.ltb_spec (Z.abs z) 2); simpl; lia. Qed.

(** The three ways through the handler. *)
Lemma handleEncoderInterrupt_cases a b now u :
  let rawDelta := quadrature (lastEncoderState u) (pinCode a b) in
  let acc := to_int8 (stepAccumulator u + rawDelta) in
  (rawDelta = 0
   /\ handleEncoderInterrupt a b now u = set_lastEncoderState (pinCode a b) u)
  \/ (rawDelta <> 0 /\ Z.abs acc < 2
      /\ handleEncoderInterrupt a b now u
         = set_stepAccumulator acc (set_lastEncoderState (pinCode a b) u))
  \/ (rawDelta <> 0 /\ 2 <= Z.abs acc
      /\ handleEncoderInterrupt a b now u
         = set_encoderDelta
             (to_int16 (encoderDelta u
                        + (if acc >? 0 then 1 else -1)
                          * calculateAcceleration (elapsed (lastEncoderTime u) now)))
             (set_lastEncoderTime now
                (set_stepAccumulator 0 (set_lastEncoderState (pinCode a b) u)))).
Proof.
  intros rawDelta acc. unfold handleEncoderInterrupt. fold rawDelta.
  destruct (Z.eqb_spec rawDelta 0) as [Hz|Hnz]; [left; auto|right].
  members. fold acc. rewrite abs_ge_2.
  destruct (Z.ltb_spec (Z.abs acc) 2) as [Hlt|Hge]; simpl negb; cbv iota.
  - left. auto.
  - right. repeat split; auto.
Qed.

Lemma handleEncoderInterrupt_inv a b now u :
  ui_inv u -> ui_inv (handleEncoderInterrupt a b now u).
Proof.
  intros [Hn Hi Hd Hc Ha].
  pose proof (pinCode_range a b) as Hpc.
  pose proof (quadrature_range (lastEncoderState u) (pinCode a b)) as Hq.
  destruct (handleEncoderInterrupt_cases a b now u)
    as [(_ & ->) | [(_ & Hlt & ->) | (_ & _ & ->)]];
    constructor; members; try assumption; try lia.
  apply to_int16_range.
Qed.

Lemma interrupts_run_inv ins u : ui_inv u -> ui_inv (interrupts_run ins u).
Proof.
  revert u. induction ins as [|[[a b] now] ins IH]; intros u Hu; [exact Hu|].
  apply IH. now apply handleEncoderInterrupt_inv.
Qed.

(** The half-detent accumulator alone: it starts at 0 and stays within
    one quarter-step of it between calls. *)
Lemma stepAccumulator_small ins u :
  stepAccumulator u = 0 -> -1 <= stepAccumulator (interrupts_run ins u) <= 1.
Proof.
  intros H0. assert (Hacc : -1 <= stepAccumulator u <= 1) by lia. clear H0.
  revert u Hacc. induction ins as [|[[a b] now] ins IH]; intros u Hacc; [exact Hacc|].
  apply IH.
  pose proof (quadrature_range (lastEncoderState u) (pinCode a b)) as Hq.
  destruct (handleEncoderInterrupt_cases a b now u)
    as [(_ & ->) | [(_ & Hlt & ->) | (_ & _ & ->)]]; members; lia.
Qed.

(** C6. Run the handler from the initial accumulator 0 over any readings,
    then once more on a reading whose quarter-step is not 0 (it is +1 or
    -1). If the running accumulator stays below 2 in absolute value, no
    detent is emitted: the pending delta and the detent timestamp are
    unchanged and the accumulator keeps the running value. If it reaches 2,
    the accumulator is reset to 0 and one detent is added to the pending
    delta with the sign of the accumulator, scaled by the acceleration
    multiplier of the time elapsed since the previous detent. *)
Theorem stepAccumulator_detent (ins : list PinSample) (u0 : UIManager)
    (a b : bool) (now : Z) :
  stepAccumulator u0 = 0 ->
  let u := interrupts_run ins u0 in
  let rawDelta := quadrature (lastEncoderState u) (pinCode a b) in
  let running := stepAccumulator u + rawDelta in
  let u' := handleEncoderInterrupt a b now u in
  rawDelta <> 0 ->
  (rawDelta = 1 \/ rawDelta = -1)
  /\ (Z.abs running < 2 ->
      stepAccumulator u' = running
      /\ encoderDelta u' = encoderDelta u
      /\ lastEncoderTime u' = lastEncoderTime u)
  /\ (2 <= Z.abs running ->
      Z.abs running = 2
      /\ stepAccumulator u' = 0
      /\ encoderDelta u'
         = to_int16 (encoderDelta u
                     + Z.sgn running
                       * calculateAcceleration (elapsed (lastEncoderTime u) now))
      /\ lastEncoderTime u' = now).
Proof.
  intros H0 u rawDelta running u' Hnz.
  pose proof (stepAccumulator_small ins u0 H0) as Hacc. fold u in Hacc.
  pose proof (quadrature_range (lastEncoderState u) (pinCode a b)) as Hq.
  fold rawDelta in Hq.
  assert (Hrun : to_int8 (stepAccumulator u + rawDelta) = running).
  { apply to_int8_id. unfold running. lia. }
  split; [lia|].
  destruct (handleEncoderInterrupt_cases a b now u)
    as [(Hz & _) | [(_ & Hlt & Heq) | (_ & Hge & Heq)]].
  - contradiction.
  - fold rawDelta in Hlt, Heq. rewrite Hrun in Hlt, Heq.
    split; [|lia]. intros _. subst u'. rewrite Heq. members. auto.
  - fold rawDelta in Hge, Heq. rewrite Hrun in Hge, Heq.
    split; [lia|]. intros _. subst u'. rewrite Heq. members.
    split; [unfold running in *; lia|]. split; [reflexivity|]. split; [|reflexivity].
    f_equal. f_equal. f_equal.
    destruct (Z.gtb_spec running 0); lia.
Qed.

Lemma stepAccumulator_detent_witness :
  encoderDelta
    (handleEncoderInterrupt true true 5
       (interrupts_run [ (false, true, 3) ] started)) = 4.
Proof.
  destruct (stepAccumulator_detent [ (false, true, 3) ] started true true 5)
    as (_ & _ & Hemit).
  - reflexivity.
  - vm_compute. discriminate.
  - destruct Hemit as (_ & _ & Hdelta & _).
    + vm_compute. discriminate.
    + rewrite Hdelta. reflexivity.
Defined.

(** ** Encoder channel: accumulation and drain *)

Lemma handleEncoderInterrupt_delta a b now u :
  is_int16 (encoderDelta u) ->
  encoderDelta (handleEncoderInterrupt a b now u)
    = to_int16 (encoderDelta u + addition a b now u).
Proof.
  intros Hd. unfold addition.
  destruct (handleEncoderInterrupt_cases a b now u)
    as [(Hz & ->) | [(Hnz & Hlt & ->) | (Hnz & Hge & ->)]]; members.
  - rewrite Hz. simpl. rewrite Z.add_0_r. symmetry. now apply to_int16_id.
  - destruct (Z.eqb_spec (quadrature (lastEncoderState u) (pinCode a b)) 0);
      [contradiction|].
    destruct (Z.ltb_spec (Z.abs (to_int8 (stepAccumulator u
                + quadrature (lastEncoderState u) (pinCode a b)))) 2); [|lia].
    simpl. rewrite Z.add_0_r. symmetry. now apply to_int16_id.
  - destruct (Z.eqb_spec (quadrature (lastEncoderState u) (pinCode a b)) 0);
      [contradiction|].
    destruct (Z.ltb_spec (Z.abs (to_int8 (stepAccumulator u
                + quadrature (lastEncoderState u) (pinCode a b)))) 2); [lia|].
    reflexivity.
Qed.

Lemma handleEncoderInterrupt_delta_range a b now u :
  is_int16 (encoderDelta u) -> is_int16 (encoderDelta (handleEncoderInterrupt a b now u)).
Proof. intros Hd. rewrite handleEncoderInterrupt_delta by exact Hd. apply to_int16_range. Qed.

(** A run of the handler leaves the sum of its additions in the pending
    delta, reduced to 16 bits. *)
Lemma interrupts_run_delta ins u :
  is_int16 (encoderDelta u) ->
  encoderDelta (interrupts_run ins u)
    = to_int16 (encoderDelta u + total (additions ins u)).
Proof.
  revert u. induction ins as [|[[a b] now] ins IH]; intros u Hd.
  - simpl. rewrite Z.add_0_r. symmetry. now apply to_int16_id.
  - change (interrupts_run ((a, b, now) :: ins) u)
      with (interrupts_run ins (handleEncoderInterrupt a b now u)).
    rewrite IH by now apply handleEncoderInterrupt_delta_range.
    rewrite handleEncoderInterrupt_delta by exact Hd.
    rewrite to_int16_add_l. unfold total. cbn [additions foldr]. f_equal. lia.
Qed.

(** ** Debouncer *)

Lemma gtb_ltb x y : (x >? y) = (y <? x).
Proof. apply Z.gtb_ltb. Qed.

(** [readButton] in one equation: the flag is the qualifying falling edge,
    and the members change exactly when the poll commits. *)
Lemma readButton_eq sw now u :
  readButton sw now u
    = (qualifying_press sw now u,
       if commits sw now u
       then set_lastButtonTime now (set_lastButtonState sw u)
       else u).
Proof.
  unfold readButton, qualifying_press, commits, elapsed, LOW, HIGH.
  rewrite gtb_ltb.
  destruct sw, (lastButtonState u), (100 <? to_uint32 (now - lastButtonTime u));
    reflexivity.
Qed.

Lemma readButton_frame sw now u :
  let u' := (readButton sw now u).2 in
  state u' = state u /\ currentParamIndex u' = currentParamIndex u
  /\ parameterCallback u' = parameterCallback u
  /\ lastEncoderState u' = lastEncoderState u
  /\ lastEncoderTime u' = lastEncoderTime u
  /\ encoderDelta u' = encoderDelta u
  /\ stepAccumulator u' = stepAccumulator u
  /\ parameters u' = parameters u.
Proof.
  rewrite readButton_eq. cbn [snd].
  destruct (commits sw now u); members; repeat split; reflexivity.
Qed.

(** ** update: the three ways through the rotation block *)

Lemma update_eq sw now u :
  update sw now u
    = match handleRotation (encoderDelta u) (set_encoderDelta 0 u) with
      | None => None
      | Some (u1, calls, redraw) => Some (buttonBlock sw now u1 calls redraw)
      end.
Proof.
  unfold update, drainEncoderDelta, buttonBlock.
  destruct (handleRotation _ _) as [[[u1 calls] redraw]|]; [|reflexivity].
  rewrite readButton_eq. cbn [snd].
  destruct (qualifying_press sw now u1); reflexivity.
Qed.

Lemma buttonBlock_frame sw now u calls redraw :
  let o := buttonBlock sw now u calls redraw in
  notified o = calls
  /\ currentParamIndex (after o) = currentParamIndex u
  /\ parameters (after o) = parameters u
  /\ encoderDelta (after o) = encoderDelta u
  /\ (redraw = true -> needsRedraw o = true).
Proof.
  unfold buttonBlock.
  destruct (readButton_frame sw now u) as (_ & Hi & _ & _ & _ & Hd & _ & Hp).
  destruct (qualifying_press sw now u); cbn [after notified needsRedraw]; members;
    repeat split; auto.
Qed.

(** [update] always leaves an empty pending delta behind. *)
Lemma update_drains sw now u o : update sw now u = Some o -> encoderDelta (after o) = 0.
Proof.
  rewrite update_eq.
  destruct (handleRotation _ _) as [[[u1 calls] redraw]|] eqn:Hrot; [|discriminate].
  intros [= <-].
  destruct (buttonBlock_frame sw now u1 calls redraw) as (_ & _ & _ & -> & _).
  unfold handleRotation in Hrot.
  destruct (encoderDelta u =? 0); [injection Hrot as <- _ _; reflexivity|].
  members. destruct (state u).
  - injection Hrot as <- _ _. reflexivity.
  - destruct (parameterAt _ _); [|discriminate]. injection Hrot as <- _ _. reflexivity.
Qed.

(** C5, as stated, fails on 8192 fast clockwise detents between two polls:
    the additions total 32768 and the drain returns -32768. *)
Lemma drain_overrun :
  let u := polled HIGH 0 started in
  encoderDelta u = 0
  /\ total (additions overrun_samples u) = 32768
  /\ drainEncoderDelta (interrupts_run overrun_samples u)
     = (-32768, set_encoderDelta 0 (interrupts_run overrun_samples u)).
Proof. vm_compute. repeat split. Qed.

(** C5, amended. After a drain, any run of the handler whose additions
    total S leaves the 16-bit reduction of S pending, so the next drain
    returns exactly S whenever S lies in [-32768, 32767]; the drain resets
    the pending delta to 0 and changes nothing else, [update] ends with an
    empty pending delta, and a drain with nothing pending returns 0 and
    leaves the manager as it is. *)
Theorem drain_exact (ins : list PinSample) (u0 : UIManager) :
  let u1 := (drainEncoderDelta u0).2 in
  let u2 := interrupts_run ins u1 in
  let S := total (additions ins u1) in
  let '(d, u3) := drainEncoderDelta u2 in
  d = to_int16 S
  /\ (is_int16 S -> d = S)
  /\ u3 = set_encoderDelta 0 u2
  /\ encoderDelta u3 = 0
  /\ drainEncoderDelta u3 = (0, u3)
  /\ (forall sw now o, update sw now u2 = Some o -> encoderDelta (after o) = 0).
Proof.
  intros u1 u2 S. unfold drainEncoderDelta.
  assert (Hd : encoderDelta u2 = to_int16 S).
  { unfold u2. rewrite interrupts_run_delta.
    - unfold u1, drainEncoderDelta. cbn [snd]. members. reflexivity.
    - unfold u1, drainEncoderDelta, is_int16. cbn [snd]. members. lia. }
  split; [exact Hd|]. split.
  { intros HS. rewrite Hd. now apply to_int16_id. }
  split; [reflexivity|]. split; [reflexivity|]. split; [reflexivity|].
  intros sw now o. apply update_drains.
Qed.

Lemma drain_exact_witness :
  let ins := clockwise 0 ++ [ (false, true, 20); (true, true, 20) ] in
  let u1 := (drainEncoderDelta started).2 in
  total (additions ins u1) = 10
  /\ is_int16 10
  /\ (drainEncoderDelta (interrupts_run ins u1)).1 = 10.
Proof.
  intros ins u1.
  assert (HS : total (additions ins u1) = 10) by (vm_compute; reflexivity).
  split; [exact HS|]. split; [unfold is_int16; lia|].
  pose proof (drain_exact ins started) as H.
  cbv zeta in H. fold u1 in H. destruct (drainEncoderDelta _) as [d u3] in H |- *.
  destruct H as (_ & H & _). cbn [fst]. rewrite <- HS. apply H.
  rewrite HS. unfold is_int16. lia.
Defined.

Lemma readButton_debounce_step sw now u :
  debounce (negb sw) now (debouncer_of u)
    = ((readButton sw now u).1, debouncer_of (readButton sw now u).2).
Proof.
  rewrite readButton_eq. cbn [fst snd].
  unfold debounce, debouncer_of, qualifying_press, commits, LOW, HIGH.
  cbn [stableLevel lastTransitionTimestamp].
  destruct sw, (lastButtonState u) eqn:Hlast, (100 <? elapsed (lastButtonTime u) now);
    cbn; rewrite ?Hlast; reflexivity.
Qed.

(** C9. Over any sequence of polled levels and timestamps, [readButton]
    emits the events of the specification's debouncer and keeps its state:
    a poll returns true exactly on a falling edge (stored level released,
    raw level pressed) more than 100 time-units after the last committed
    transition, and then stores the pressed level and the timestamp; an
    edge within 100 time-units changes nothing and emits nothing; a release
    emits nothing and, past 100 time-units, only stores the released level
    and the timestamp; without an edge nothing happens. *)
Theorem readButton_debounces (polls : list (bool * Z)) (u : UIManager) :
  let '(events, u') := readButton_run polls u in
  debounce_run (map (fun '(sw, now) => (negb sw, now)) polls) (debouncer_of u)
    = (events, debouncer_of u')
  /\ (forall sw now v,
        (readButton sw now v).1 = qualifying_press sw now v
        /\ (sw = LOW -> lastButtonState v = HIGH ->
            100 < elapsed (lastButtonTime v) now ->
            readButton sw now v
              = (true, set_lastButtonTime now (set_lastButtonState LOW v)))
        /\ (elapsed (lastButtonTime v) now <= 100 -> readButton sw now v = (false, v))
        /\ (sw = HIGH ->
            (readButton sw now v).1 = false
            /\ (lastButtonState v = LOW -> 100 < elapsed (lastButtonTime v) now ->
                (readButton sw now v).2
                  = set_lastButtonTime now (set_lastButtonState HIGH v)))
        /\ (sw = lastButtonState v -> readButton sw now v = (false, v))).
Proof.
  destruct (readButton_run polls u) as [events u'] eqn:Hrun. split.
  - revert u events u' Hrun.
    induction polls as [|[sw now] polls IH]; intros u events u' Hrun.
    + injection Hrun as <- <-. reflexivity.
    + cbn [readButton_run] in Hrun. cbn [map debounce_run].
      rewrite readButton_debounce_step.
      destruct (readButton sw now u) as [pressed u1]. cbn [fst snd].
      destruct (readButton_run polls u1) as [events1 u2] eqn:Hrest.
      injection Hrun as <- <-.
      rewrite (IH u1 events1 u2 Hrest). reflexivity.
  - intros sw now v. rewrite readButton_eq. cbn [fst snd].
    unfold qualifying_press, commits, LOW, HIGH.
    split; [reflexivity|]. split; [|split; [|split]].
    + intros -> -> Hlt. apply Z.ltb_lt in Hlt. rewrite Hlt. reflexivity.
    + intros Hle. apply Z.ltb_ge in Hle. rewrite Hle, !andb_false_r. reflexivity.
    + intros ->. split; [reflexivity|].
      intros -> Hlt. apply Z.ltb_lt in Hlt. rewrite Hlt. reflexivity.
    + intros ->. rewrite Bool.eqb_reflx. destruct (lastButtonState v); reflexivity.
Qed.

Lemma readButton_debounces_witness :
  100 < elapsed (lastButtonTime started) 101
  /\ readButton_run
       [ (LOW, 101); (HIGH, 150); (LOW, 160); (HIGH, 300); (LOW, 350); (LOW, 420) ]
       started
     = ([ true; false; false; false; false; true ],
        set_lastButtonTime 420 (set_lastButtonState LOW started))
  /\ readButton LOW 101 started
     = (true, set_lastButtonTime 101 (set_lastButtonState LOW started)).
Proof.
  split; [vm_compute; reflexivity|]. split; [vm_compute; reflexivity|].
  pose proof (readButton_debounces [] started) as H. cbn [readButton_run] in H.
  destruct H as (_ & H). destruct (H LOW 101 started) as (_ & Hpress & _).
  apply Hpress; [reflexivity | reflexivity | vm_compute; reflexivity].
Defined.

(** ** Parameter store: external value injection *)

Section UpdateLoop.

Variables (cc' value' : Z).

(** The loop stops at the first match at or after its start. *)
Lemma updateParameterValue_from_found n i j p (ps : list Param) :
  (i <= j < i + n)%nat ->
  ps !! j = Some p ->
  cc p = cc' ->
  (forall k q, (i <= k < j)%nat -> ps !! k = Some q -> cc q <> cc') ->
  updateParameterValue_from n i cc' value' ps = <[j := set_value value' p]> ps.
Proof.
  revert i. induction n as [|n IH]; intros i Hij Hj Hcc Hbefore; [lia|].
  cbn [updateParameterValue_from].
  destruct (decide (i = j)) as [->|Hne].
  - rewrite Hj. rewrite (proj2 (Z.eqb_eq _ _) Hcc). reflexivity.
  - destruct (ps !! i) as [q|] eqn:Hi.
    + destruct (Z.eqb_spec (cc q) cc') as [Heq|_].
      * exfalso. apply (Hbefore i q); [lia | exact Hi | exact Heq].
      * apply IH; [lia | exact Hj | exact Hcc |].
        intros k r Hk. apply Hbefore. lia.
    + apply lookup_ge_None in Hi. apply lookup_lt_Some in Hj. lia.
Qed.

(** Without a match the loop runs to the end and writes nothing. *)
Lemma updateParameterValue_from_absent n i (ps : list Param) :
  (forall k q, (i <= k)%nat -> ps !! k = Some q -> cc q <> cc') ->
  updateParameterValue_from n i cc' value' ps = ps.
Proof.
  revert i. induction n as [|n IH]; intros i Hnone; [reflexivity|].
  cbn [updateParameterValue_from].
  destruct (ps !! i) as [q|] eqn:Hi; [|reflexivity].
  destruct (Z.eqb_spec (cc q) cc') as [Heq|_].
  - exfalso. apply (Hnone i q); [lia | exact Hi | exact Heq].
  - apply IH. intros k r Hk. apply Hnone. lia.
Qed.

(** The whole loop writes the first match of the linear scan, if any. *)
Lemma updateParameterValue_parameters (u : UIManager) :
  parameters (updateParameterValue cc' value' u)
    = match findByCC cc' (parameters u) with
      | Some (i, p) => <[i := set_value value' p]> (parameters u)
      | None => parameters u
      end.
Proof.
  unfold updateParameterValue, findByCC. members.
  destruct (list_find _ _) as [[i p]|] eqn:Hfind.
  - apply list_find_Some in Hfind as (Hi & Hcc & Hbefore).
    apply updateParameterValue_from_found; [| exact Hi | exact Hcc |].
    + apply lookup_lt_Some in Hi. lia.
    + intros k q Hk Hq. apply (Hbefore k q Hq). lia.
  - apply list_find_None in Hfind.
    apply updateParameterValue_from_absent.
    intros k q _ Hq. exact (proj1 (Forall_lookup _ _) Hfind k q Hq).
Qed.

End UpdateLoop.

(** C10. [updateParameterValue] changes at most the [value] of the first
    parameter, in store order, whose [cc] is the argument, and nothing at
    all when no parameter has that [cc]; the name, cc, minVal and maxVal of
    every parameter, the value of every other parameter, the number of
    parameters, the UI mode, the selected index and every other member of
    the manager are unchanged. *)
Theorem updateParameterValue_frame (cc' value' : Z) (u : UIManager) :
  let u' := updateParameterValue cc' value' u in
  state u' = state u
  /\ currentParamIndex u' = currentParamIndex u
  /\ u' = set_parameters (parameters u') u
  /\ length (parameters u') = length (parameters u)
  /\ (findByCC cc' (parameters u) = None -> u' = u)
  /\ (forall j q, parameters u !! j = Some q ->
        exists q', parameters u' !! j = Some q'
          /\ name q' = name q /\ cc q' = cc q
          /\ minVal q' = minVal q /\ maxVal q' = maxVal q
          /\ (value q' = value q
              \/ findByCC cc' (parameters u) = Some (j, q) /\ value q' = value')).
Proof.
  intros u'. split; [reflexivity|]. split; [reflexivity|]. split; [reflexivity|].
  subst u'. rewrite updateParameterValue_parameters.
  split; [|split].
  - destruct (findByCC _ _) as [[i p]|]; [apply length_insert | reflexivity].
  - intros Hnone. unfold updateParameterValue.
    pose proof (updateParameterValue_parameters cc' value' u) as Hps.
    rewrite Hnone in Hps. unfold updateParameterValue in Hps. members.
    rewrite Hps. destruct u; reflexivity.
  - intros j q Hq. destruct (findByCC _ _) as [[i p]|] eqn:Hfind.
    + destruct (decide (i = j)) as [->|Hne].
      * assert (Hp : parameters u !! j = Some p).
        { unfold findByCC in Hfind. now apply list_find_Some in Hfind as (Hp & _). }
        rewrite Hq in Hp. injection Hp as <-.
        exists (set_value value' q). rewrite list_lookup_insert_eq.
        -- repeat split; auto.
        -- now apply lookup_lt_Some in Hq.
      * exists q. rewrite list_lookup_insert_ne by exact Hne. repeat split; auto.
    + exists q. repeat split; auto.
Qed.

Lemma updateParameterValue_frame_witness :
  findByCC 5 (parameters initial) = None
  /\ updateParameterValue 5 9 initial = initial.
Proof.
  split; [reflexivity|].
  destruct (updateParameterValue_frame 5 9 initial) as (_ & _ & _ & _ & H & _).
  apply H. reflexivity.
Defined.

Lemma initial_store_inv : store_inv (parameters initial).
Proof.
  unfold store_inv, initial, initialParameters. members.
  repeat (constructor; [unfold in_bounds; cbn; lia|]). constructor.
Qed.

(** C1, as stated, fails: writing 100 to cc 77 ("Dist Mode", maxVal 4) on
    the initial store leaves the value 100 there, above its maxVal. *)
Lemma updateParameterValue_unclamped :
  store_inv (parameters initial)
  /\ parameters (updateParameterValue 77 100 initial) !! 10%nat
     = Some (mkParameter "Dist Mode" 77 100 0 4)
  /\ ~ store_inv (parameters (updateParameterValue 77 100 initial)).
Proof.
  split; [exact initial_store_inv|]. split; [reflexivity|].
  intros Hinv.
  pose proof (proj1 (Forall_lookup _ _) Hinv 10%nat _ eq_refl) as Hb.
  unfold in_bounds in Hb. cbn in Hb. lia.
Qed.

(** C1, amended. [updateParameterValue] stores the value as given, without
    clamping, in the first parameter with that cc, whether or not the value
    lies within that parameter's bounds, and leaves the store as it is when
    no parameter has that cc. If every parameter is within its bounds before
    the call and the value written lies within the bounds of that parameter
    (or no parameter has that cc), every parameter is within its bounds
    after the call; a value above that parameter's maxVal or below its
    minVal is stored unchanged, so the store is then not within its
    bounds. *)
Theorem updateParameterValue_bounds (cc' value' : Z) (u : UIManager) :
  let u' := updateParameterValue cc' value' u in
  (forall i p, findByCC cc' (parameters u) = Some (i, p) ->
     parameters u' !! i = Some (set_value value' p)
     /\ getParameter (Z.of_nat i) u' = Some (set_value value' p)
     /\ value (set_value value' p) = value')
  /\ (findByCC cc' (parameters u) = None -> parameters u' = parameters u)
  /\ (store_inv (parameters u) ->
      (forall i p, findByCC cc' (parameters u) = Some (i, p) ->
                   minVal p <= value' <= maxVal p) ->
      store_inv (parameters u'))
  /\ (forall i p, findByCC cc' (parameters u) = Some (i, p) ->
        ~ (minVal p <= value' <= maxVal p) ->
        ~ store_inv (parameters u')).
Proof.
  intros u'.
  assert (Hstored : forall i p, findByCC cc' (parameters u) = Some (i, p) ->
                      parameters u' !! i = Some (set_value value' p)).
  { intros i p Hfind. subst u'. rewrite updateParameterValue_parameters, Hfind.
    apply list_lookup_insert_eq.
    unfold findByCC in Hfind. apply list_find_Some in Hfind as (Hp & _).
    now apply lookup_lt_Some in Hp. }
  split; [|split; [|split]].
  - intros i p Hfind. split; [now apply Hstored|]. split; [|reflexivity].
    pose proof (Hstored i p Hfind) as Hi.
    pose proof (lookup_lt_Some _ _ _ Hi) as Hlt.
    unfold getParameter, parameterAt, paramCount.
    destruct (Z.geb_spec (Z.of_nat i) (Z.of_nat (length (parameters u')))); [lia|].
    destruct (Z.ltb_spec (Z.of_nat i) 0); [lia|].
    rewrite Nat2Z.id. exact Hi.
  - intros Hnone. subst u'. rewrite updateParameterValue_parameters, Hnone. reflexivity.
  - intros Hinv Hfit. subst u'. rewrite updateParameterValue_parameters.
    destruct (findByCC cc' (parameters u)) as [[i p]|] eqn:Hfind; [|exact Hinv].
    apply Forall_insert; [exact Hinv|]. unfold in_bounds. cbn.
    exact (Hfit i p eq_refl).
  - intros i p Hfind Hout Hinv.
    pose proof (proj1 (Forall_lookup _ _) Hinv i _ (Hstored i p Hfind)) as Hb.
    unfold in_bounds in Hb. cbn in Hb. contradiction.
Qed.

Lemma updateParameterValue_bounds_witness :
  store_inv (parameters (updateParameterValue 77 3 initial))
  /\ parameters (updateParameterValue 77 3 initial) !! 10%nat
     = Some (mkParameter "Dist Mode" 77 3 0 4)
  /\ parameters (updateParameterValue 77 100 initial) !! 10%nat
     = Some (mkParameter "Dist Mode" 77 100 0 4)
  /\ ~ store_inv (parameters (updateParameterValue 77 100 initial)).
Proof.
  destruct (updateParameterValue_bounds 77 3 initial) as (Hval & _ & Hinv & _).
  destruct (updateParameterValue_bounds 77 100 initial) as (Hval' & _ & _ & Hout).
  split; [|split; [|split]].
  - apply Hinv; [exact initial_store_inv|].
    intros i p Hfind. vm_compute in Hfind. injection Hfind as <- <-. cbn. lia.
  - apply (Hval 10%nat (mkParameter "Dist Mode" 77 0 0 4)). reflexivity.
  - apply (Hval' 10%nat (mkParameter "Dist Mode" 77 0 0 4)). reflexivity.
  - apply (Hout 10%nat (mkParameter "Dist Mode" 77 0 0 4)); [reflexivity|].
    cbn. lia.
Defined.

(** ** update: menu navigation and parameter editing *)

Lemma to_int16_above z : 32767 < z <= 98303 -> to_int16 z = z - 65536.
Proof. unfold to_int16. intros H. Z.div_mod_to_equations. lia. Qed.

Lemma update_idle sw now u :
  encoderDelta u = 0 ->
  update sw now u = Some (buttonBlock sw now (set_encoderDelta 0 u) [] false).
Proof. intros Hz. rewrite update_eq. unfold handleRotation. rewrite Hz. reflexivity. Qed.

Lemma update_menu sw now u :
  state u = UI_MENU -> encoderDelta u <> 0 ->
  update sw now u
    = Some (buttonBlock sw now
              (set_currentParamIndex
                 (navigate (paramCount u) (currentParamIndex u) (encoderDelta u))
                 (set_encoderDelta 0 u))
              [] true).
Proof.
  intros Hs Hnz. rewrite update_eq. unfold handleRotation.
  apply Z.eqb_neq in Hnz. rewrite Hnz. members. rewrite Hs. reflexivity.
Qed.

Lemma update_edit sw now u p :
  state u = UI_EDIT -> encoderDelta u <> 0 ->
  parameterAt (currentParamIndex u) (parameters u) = Some p ->
  update sw now u
    = Some (buttonBlock sw now
              (set_parameters
                 (<[Z.to_nat (currentParamIndex u)
                    := set_value (edit p (encoderDelta u)) p]> (parameters u))
                 (set_encoderDelta 0 u))
              (if parameterCallback u then [(cc p, edit p (encoderDelta u))] else [])
              true).
Proof.
  intros Hs Hnz Hp. rewrite update_eq. unfold handleRotation.
  apply Z.eqb_neq in Hnz. rewrite Hnz. members. rewrite Hs, Hp. reflexivity.
Qed.

Lemma parameterAt_lookup i (ps : list Param) p :
  parameterAt i ps = Some p -> 0 <= i /\ ps !! Z.to_nat i = Some p.
Proof.
  unfold parameterAt. destruct (Z.ltb_spec i 0); [discriminate|]. auto.
Qed.

(** Where the menu branch lands, by the position of the exact sum. *)
Lemma navigate_cases count index delta :
  0 < count <= 255 -> 0 <= index < count -> is_int16 delta ->
  let n := index + delta in
  (n < 0 -> navigate count index delta = count - 1)
  /\ (0 <= n < count -> navigate count index delta = n)
  /\ (count <= n <= 32767 -> navigate count index delta = 0)
  /\ (32767 < n -> navigate count index delta = count - 1).
Proof.
  intros Hc Hi Hd n. unfold is_int16 in Hd. unfold navigate. fold n.
  assert (Hlast : to_uint8 (to_int16 (count - 1)) = count - 1).
  { rewrite to_int16_id by (unfold is_int16; lia).
    apply to_uint8_id. unfold is_uint8. lia. }
  repeat split; intros Hn.
  - rewrite to_int16_id by (unfold is_int16; lia).
    destruct (Z.ltb_spec n 0); [exact Hlast | lia].
  - rewrite to_int16_id by (unfold is_int16; lia).
    destruct (Z.ltb_spec n 0); [lia|].
    destruct (Z.geb_spec n count); [lia|].
    apply to_uint8_id. unfold is_uint8. lia.
  - rewrite to_int16_id by (unfold is_int16; lia).
    destruct (Z.ltb_spec n 0); [lia|].
    destruct (Z.geb_spec n count); [reflexivity | lia].
  - rewrite to_int16_above by lia.
    destruct (Z.ltb_spec (n - 65536) 0); [exact Hlast | lia].
Qed.

(** C2, as stated, fails: with a pending delta of -2 (one fast detent
    anticlockwise) at index 0 of 22, [update] selects index 21, and
    (0 + -2) mod 22 is 20. *)
Lemma menu_jump_not_modular :
  state two_back = UI_MENU
  /\ currentParamIndex two_back = 0
  /\ paramCount two_back = 22
  /\ encoderDelta two_back = -2
  /\ (currentParamIndex ∘ after) <$> update HIGH 30 two_back = Some 21
  /\ (0 + -2) mod 22 = 20.
Proof. vm_compute. repeat split. Qed.

(** C2, amended. In menu mode with a pending delta other than 0, [update]
    moves the selected index to index + delta when that is inside
    [0, count-1], to count-1 when it is negative (or above 32767, where the
    16-bit sum wraps) and to 0 when it is count or more: the index stays in
    range and redraw is marked; the result is (index + delta) mod count
    whenever -1 <= index + delta <= count, so for delta = +1 and -1. *)
Theorem menu_navigation (sw : bool) (now : Z) (u : UIManager) :
  ui_inv u -> state u = UI_MENU -> encoderDelta u <> 0 ->
  exists o, update sw now u = Some o
    /\ needsRedraw o = true
    /\ let n := currentParamIndex u + encoderDelta u in
       let index' := currentParamIndex (after o) in
       0 <= index' < paramCount u
       /\ (0 <= n < paramCount u -> index' = n)
       /\ (n < 0 -> index' = paramCount u - 1)
       /\ (paramCount u <= n <= 32767 -> index' = 0)
       /\ (32767 < n -> index' = paramCount u - 1)
       /\ (-1 <= n <= paramCount u -> index' = n mod paramCount u).
Proof.
  intros [Hc Hi Hd _ _] Hs Hnz. eexists. split; [now apply update_menu|].
  match goal with |- context [buttonBlock ?s ?t ?v ?c ?r] =>
    destruct (buttonBlock_frame s t v c r) as (_ & Hidx & _ & _ & Hr) end.
  split; [now apply Hr|]. intros n index'. subst index'. rewrite Hidx. members.
  destruct (navigate_cases _ _ _ Hc Hi Hd) as (Hneg & Hin & Hover & Hwrap).
  fold n in Hneg, Hin, Hover, Hwrap.
  split; [|split; [exact Hin | split; [exact Hneg | split; [exact Hover | split; [exact Hwrap|]]]]].
  - destruct (Z_lt_le_dec n 0); [rewrite Hneg by lia; lia|].
    destruct (Z_lt_le_dec n (paramCount u)); [rewrite Hin by lia; lia|].
    destruct (Z_le_gt_dec n 32767); [rewrite Hover by lia; lia|].
    rewrite Hwrap by lia. lia.
  - intros Hn.
    destruct (Z_lt_le_dec n 0).
    + rewrite Hneg by lia. replace n with (-1) by lia.
      apply (Z.mod_unique_pos _ _ (-1)); lia.
    + destruct (Z_lt_le_dec n (paramCount u)).
      * rewrite Hin by lia. symmetry. apply Z.mod_small. lia.
      * rewrite Hover by (unfold is_int16 in Hd; lia).
        replace n with (paramCount u) by lia. symmetry. apply Z.mod_same. lia.
Qed.

Lemma started_inv : ui_inv started.
Proof. constructor; vm_compute; split; congruence. Qed.

Lemma menu_navigation_witness :
  exists o, update HIGH 30 two_back = Some o /\ currentParamIndex (after o) = 21.
Proof.
  destruct (menu_navigation HIGH 30 two_back) as (o & Ho & _ & _ & _ & Hneg & _).
  - constructor; vm_compute; split; congruence.
  - reflexivity.
  - vm_compute. discriminate.
  - exists o. split; [exact Ho|]. apply Hneg. vm_compute. reflexivity.
Defined.

Lemma edit_clamp p delta :
  edit p delta = to_uint8 (clamp (to_int16 (value p + delta)) (minVal p) (maxVal p)).
Proof. reflexivity. Qed.

Lemma clamp_cases x lo hi :
  clamp x lo hi = lo \/ clamp x lo hi = hi \/ (clamp x lo hi = x /\ lo <= x <= hi).
Proof.
  unfold clamp. destruct (Z.ltb_spec x lo); [auto|].
  destruct (Z.gtb_spec x hi); [auto|]. right. right. split; [reflexivity | lia].
Qed.

Lemma clamp_bounds x lo hi : lo <= hi -> lo <= clamp x lo hi <= hi.
Proof.
  intros Hle. unfold clamp. destruct (Z.ltb_spec x lo); [lia|].
  destruct (Z.gtb_spec x hi); lia.
Qed.

(** Without overflow of the 16-bit sum the edit branch is the clamp of the
    exact sum. *)
Lemma edit_exact p delta :
  param_uint8 p -> is_int16 delta -> value p + delta <= 32767 ->
  edit p delta = clamp (value p + delta) (minVal p) (maxVal p).
Proof.
  intros (_ & Hv & Hlo & Hhi) Hd Hsum. unfold is_uint8, is_int16 in *.
  rewrite edit_clamp. rewrite to_int16_id by (unfold is_int16; lia).
  apply to_uint8_id. unfold is_uint8.
  destruct (clamp_cases (value p + delta) (minVal p) (maxVal p))
    as [-> | [-> | [-> ?]]]; lia.
Qed.

(** C3, as stated, fails: in edit mode on Volume at its maximum 127, one
    detent clockwise leaves the value at clamp(127 + 1, 0, 127) = 127, and
    [update] still returns true and invokes the callback with (7, 127). *)
Lemma edit_at_bound_notifies :
  state at_maximum = UI_EDIT
  /\ encoderDelta at_maximum = 1
  /\ parameterCallback at_maximum = true
  /\ parameterAt (currentParamIndex at_maximum) (parameters at_maximum)
     = Some (mkParameter "Volume" 7 127 0 127)
  /\ clamp (127 + 1) 0 127 = 127
  /\ update HIGH 160 at_maximum
     = Some {| after := set_encoderDelta 0 at_maximum;
               notified := [(7, 127)];
               needsRedraw := true |}.
Proof. vm_compute. repeat split. Qed.

(** C3, amended. In edit mode with a pending delta other than 0, [update]
    marks redraw whether or not the clamped value differs from the previous
    one; the callback is invoked at most once, never when none is
    registered, and, when one is registered and the clamped value differs
    from the previous value, exactly once with the parameter's cc and the
    new value. *)
Theorem edit_redraw_and_callback (sw : bool) (now : Z) (u : UIManager) (p : Param) :
  state u = UI_EDIT -> encoderDelta u <> 0 ->
  parameterAt (currentParamIndex u) (parameters u) = Some p ->
  exists o, update sw now u = Some o
    /\ needsRedraw o = true
    /\ (length (notified o) <= 1)%nat
    /\ (parameterCallback u = false -> notified o = [])
    /\ (parameterCallback u = true -> edit p (encoderDelta u) <> value p ->
        notified o = [(cc p, edit p (encoderDelta u))]
        /\ exists p', parameters (after o) !! Z.to_nat (currentParamIndex u) = Some p'
             /\ value p' = edit p (encoderDelta u)).
Proof.
  intros Hs Hnz Hp. eexists. split; [exact (update_edit sw now u p Hs Hnz Hp)|].
  match goal with |- context [buttonBlock ?s ?t ?v ?c ?r] =>
    destruct (buttonBlock_frame s t v c r) as (Hcalls & _ & Hps & _ & Hr) end.
  rewrite Hcalls, Hps. members.
  split; [now apply Hr|]. split; [destruct (parameterCallback u); simpl; lia|].
  split; [intros ->; reflexivity|].
  intros -> _. split; [reflexivity|].
  exists (set_value (edit p (encoderDelta u)) p). split; [|reflexivity].
  apply parameterAt_lookup in Hp as [_ Hp].
  apply list_lookup_insert_eq. now apply lookup_lt_Some in Hp.
Qed.

Lemma edit_redraw_and_callback_witness :
  exists o, update HIGH 220 near_maximum = Some o
    /\ needsRedraw o = true /\ notified o = [(7, 127)].
Proof.
  destruct (edit_redraw_and_callback HIGH 220 near_maximum
              (mkParameter "Volume" 7 125 0 127))
    as (o & Ho & Hr & _ & _ & Hcall).
  - reflexivity.
  - vm_compute. discriminate.
  - reflexivity.
  - exists o. split; [exact Ho|]. split; [exact Hr|].
    destruct Hcall as [Hcall _].
    + reflexivity.
    + vm_compute. discriminate.
    + exact Hcall.
Defined.

(** C8, as stated, fails: in edit mode on Volume (value 76, bounds 0 and
    127) with a pending delta of 32767, the 16-bit sum wraps to a negative
    number, so [update] stores 0 and passes 0 to the callback, where
    clamp(76 + 32767, 0, 127) is 127. *)
Lemma edit_far_turn_wraps :
  state far_turn = UI_EDIT
  /\ encoderDelta far_turn = 32767
  /\ parameterAt (currentParamIndex far_turn) (parameters far_turn)
     = Some (mkParameter "Volume" 7 76 0 127)
  /\ clamp (76 + 32767) 0 127 = 127
  /\ (fun o => (parameterAt (currentParamIndex far_turn) (parameters (after o)),
                notified o))
       <$> update HIGH 130 far_turn
     = Some (Some (mkParameter "Volume" 7 0 0 127), [(7, 0)]).
Proof. vm_compute. repeat split. Qed.

(** C8, amended. In edit mode with a pending delta other than 0 such that
    value + delta does not exceed 32767 (the 16-bit sum does not wrap), the
    stored value after [update] is clamp(value + delta, minVal, maxVal),
    which lies within the bounds, every other parameter is unchanged, and
    the callback, when one is registered, is invoked once with the
    parameter's cc and that clamped stored value; from 125 with bounds 0
    and 127, a delta of 8 stores 127 and passes 127. *)
Theorem edit_clamps (sw : bool) (now : Z) (u : UIManager) (p : Param) :
  state u = UI_EDIT -> encoderDelta u <> 0 -> is_int16 (encoderDelta u) ->
  parameterAt (currentParamIndex u) (parameters u) = Some p ->
  param_uint8 p ->
  value p + encoderDelta u <= 32767 ->
  let v := clamp (value p + encoderDelta u) (minVal p) (maxVal p) in
  exists o, update sw now u = Some o
    /\ parameters (after o)
       = <[Z.to_nat (currentParamIndex u) := set_value v p]> (parameters u)
    /\ parameterAt (currentParamIndex u) (parameters (after o)) = Some (set_value v p)
    /\ notified o = (if parameterCallback u then [(cc p, v)] else [])
    /\ (minVal p <= maxVal p -> minVal p <= v <= maxVal p)
    /\ clamp (125 + 8) 0 127 = 127.
Proof.
  intros Hs Hnz Hd Hp H8 Hsum v. eexists. split; [exact (update_edit sw now u p Hs Hnz Hp)|].
  match goal with |- context [buttonBlock ?s ?t ?w ?c ?r] =>
    destruct (buttonBlock_frame s t w c r) as (Hcalls & _ & Hps & _ & _) end.
  rewrite Hcalls, Hps. members. rewrite edit_exact by assumption. fold v.
  split; [reflexivity|]. split; [|split; [reflexivity|split; [|reflexivity]]].
  - unfold parameterAt in *. destruct (Z.ltb_spec (currentParamIndex u) 0); [discriminate|].
    apply list_lookup_insert_eq. now apply lookup_lt_Some in Hp.
  - apply clamp_bounds.
Qed.

Lemma edit_clamps_witness :
  encoderDelta near_maximum = 8
  /\ exists o, update HIGH 220 near_maximum = Some o
       /\ parameterAt 0 (parameters (after o)) = Some (mkParameter "Volume" 7 127 0 127)
       /\ notified o = [(7, 127)].
Proof.
  split; [reflexivity|].
  destruct (edit_clamps HIGH 220 near_maximum (mkParameter "Volume" 7 125 0 127))
    as (o & Ho & _ & Hv & Hcall & _).
  - reflexivity.
  - vm_compute. discriminate.
  - vm_compute. split; discriminate.
  - reflexivity.
  - vm_compute. repeat split; discriminate.
  - vm_compute. discriminate.
  - exists o. split; [exact Ho|]. split; [exact Hv | exact Hcall].
Defined.

(** ** The invariant is kept, and update is defined under it *)

Lemma buttonBlock_inv sw now u calls redraw :
  ui_inv u -> ui_inv (after (buttonBlock sw now u calls redraw)).
Proof.
  intros [Hc Hi Hd Hcode Hacc]. unfold buttonBlock. rewrite readButton_eq. cbn [snd].
  destruct (qualifying_press sw now u), (commits sw now u);
    cbn [after]; constructor; members; assumption.
Qed.

Lemma navigate_range count index delta :
  0 < count <= 255 -> 0 <= index < count -> is_int16 delta ->
  0 <= navigate count index delta < count.
Proof.
  intros Hc Hi Hd.
  destruct (navigate_cases count index delta Hc Hi Hd) as (Hneg & Hin & Hover & Hwrap).
  destruct (Z_lt_le_dec (index + delta) 0); [rewrite Hneg by lia; lia|].
  destruct (Z_lt_le_dec (index + delta) count); [rewrite Hin by lia; lia|].
  destruct (Z_le_gt_dec (index + delta) 32767); [rewrite Hover by lia; lia|].
  rewrite Hwrap by lia. lia.
Qed.

Lemma parameterAt_in_range i (ps : list Param) :
  0 <= i < Z.of_nat (length ps) -> exists p, parameterAt i ps = Some p.
Proof.
  intros Hi. unfold parameterAt. destruct (Z.ltb_spec i 0); [lia|].
  apply lookup_lt_is_Some. lia.
Qed.

(** Under the invariant [update] never reads outside the array, and it
    keeps the invariant. *)
Lemma update_defined sw now u :
  ui_inv u -> exists o, update sw now u = Some o /\ ui_inv (after o).
Proof.
  intros Hinv. pose proof Hinv as [Hc Hi Hd Hcode Hacc].
  destruct (Z.eq_dec (encoderDelta u) 0) as [Hz|Hnz].
  { eexists. split; [now apply update_idle|]. apply buttonBlock_inv.
    constructor; members; try assumption. unfold is_int16. lia. }
  destruct (state u) eqn:Hs.
  - eexists. split; [now apply update_menu|]. apply buttonBlock_inv.
    constructor; members; try assumption.
    + now apply navigate_range.
    + unfold is_int16. lia.
  - destruct (parameterAt_in_range _ _ Hi) as [p Hp].
    eexists. split; [exact (update_edit sw now u p Hs Hnz Hp)|]. apply buttonBlock_inv.
    unfold paramCount in *.
    constructor; unfold paramCount; members; rewrite ?length_insert; try assumption.
    unfold is_int16. lia.
Qed.

Lemma updateParameterValue_inv cc' value' u :
  ui_inv u -> ui_inv (updateParameterValue cc' value' u).
Proof.
  intros [Hc Hi Hd Hcode Hacc].
  assert (Hlen : length (parameters (updateParameterValue cc' value' u))
                 = length (parameters u)).
  { rewrite updateParameterValue_parameters.
    destruct (findByCC _ _) as [[i p]|]; [apply length_insert | reflexivity]. }
  constructor; unfold paramCount; rewrite ?Hlen; try assumption.
Qed.

Lemma begin_inv a b sw now u : ui_inv u -> ui_inv (begin a b sw now u).
Proof.
  intros [Hc Hi Hd Hcode Hacc]. unfold begin.
  constructor; members; try assumption. apply pinCode_range.
Qed.

Lemma initial_inv : ui_inv initial.
Proof. constructor; vm_compute; split; congruence. Qed.

(** ** The handler and the rest of update touch disjoint members *)

(** The handler leaves the members of the polling side alone ... *)
Lemma handleEncoderInterrupt_frame a b now u :
  let u' := handleEncoderInterrupt a b now u in
  state u' = state u /\ currentParamIndex u' = currentParamIndex u
  /\ lastButtonState u' = lastButtonState u /\ lastButtonTime u' = lastButtonTime u
  /\ parameterCallback u' = parameterCallback u /\ parameters u' = parameters u.
Proof.
  destruct (handleEncoderInterrupt_cases a b now u)
    as [(_ & Heq) | [(_ & _ & Heq) | (_ & _ & Heq)]];
    cbv zeta; rewrite Heq; members; repeat split; reflexivity.
Qed.

(** ... and what [update] does after its critical section leaves the
    members of the handler alone, so a handler call that arrives after the
    drain has the effect it would have after [update]. *)
Lemma buttonBlock_encoder_frame sw now u calls redraw :
  let u' := after (buttonBlock sw now u calls redraw) in
  lastEncoderState u' = lastEncoderState u /\ lastEncoderTime u' = lastEncoderTime u
  /\ encoderDelta u' = encoderDelta u /\ stepAccumulator u' = stepAccumulator u.
Proof.
  unfold buttonBlock. rewrite readButton_eq. cbn [snd].
  destruct (qualifying_press sw now u), (commits sw now u);
    cbn [after]; members; repeat split; reflexivity.
Qed.

Lemma handleRotation_encoder_frame delta u u' calls redraw :
  handleRotation delta u = Some (u', calls, redraw) ->
  lastEncoderState u' = lastEncoderState u /\ lastEncoderTime u' = lastEncoderTime u
  /\ encoderDelta u' = encoderDelta u /\ stepAccumulator u' = stepAccumulator u.
Proof.
  unfold handleRotation. destruct (delta =? 0).
  - intros [= <- _ _]. repeat split; reflexivity.
  - destruct (state u).
    + intros [= <- _ _]. members. repeat split; reflexivity.
    + destruct (parameterAt _ _); [|discriminate].
      intros [= <- _ _]. members. repeat split; reflexivity.
Qed.

(** * Further properties of the manager *)

(** ** getParameter *)

(** X1. On a manager with at least one parameter [getParameter] always
    returns a parameter: the one at the index when the index is inside the
    array, and the one at index 0 for every index from [paramCount] on. *)
Theorem getParameter_fallback (index : Z) (u : UIManager) :
  0 < paramCount u -> 0 <= index ->
  (index < paramCount u -> getParameter index u = parameters u !! Z.to_nat index)
  /\ (paramCount u <= index -> getParameter index u = parameters u !! 0%nat)
  /\ exists p, getParameter index u = Some p.
Proof.
  intros Hc Hi. unfold getParameter, parameterAt.
  destruct (Z.geb_spec index (paramCount u)) as [Hge|Hlt].
  - cbn. split; [lia|]. split; [reflexivity|].
    apply lookup_lt_is_Some. unfold paramCount in Hc. lia.
  - destruct (Z.ltb_spec index 0); [lia|].
    split; [reflexivity|]. split; [lia|].
    apply lookup_lt_is_Some. unfold paramCount in Hlt. lia.
Qed.

Lemma getParameter_fallback_witness :
  getParameter 22 initial = Some (mkParameter "Volume" 7 76 0 127)
  /\ getParameter 255 initial = getParameter 0 initial.
Proof.
  destruct (getParameter_fallback 22 initial) as (_ & H22 & _);
    [vm_compute; reflexivity | lia |].
  destruct (getParameter_fallback 255 initial) as (_ & H255 & _);
    [vm_compute; reflexivity | lia |].
  split.
  - rewrite H22; [reflexivity | vm_compute; discriminate].
  - rewrite H255; [reflexivity | vm_compute; discriminate].
Defined.

(** ** calculateAcceleration and the wrapping clock *)

(** X2. The multiplier is 1, 2 or 4 and never grows with the elapsed time:
    a slower turn is never accelerated more than a faster one. *)
Theorem calculateAcceleration_antitone (dt1 dt2 : Z) :
  dt1 <= dt2 ->
  calculateAcceleration dt2 <= calculateAcceleration dt1
  /\ (calculateAcceleration dt1 = 1 \/ calculateAcceleration dt1 = 2
      \/ calculateAcceleration dt1 = 4)
  /\ (calculateAcceleration dt2 = 1 \/ calculateAcceleration dt2 = 2
      \/ calculateAcceleration dt2 = 4).
Proof.
  intros Hle. unfold calculateAcceleration.
  destruct (Z.ltb_spec dt1 15), (Z.ltb_spec dt1 30),
           (Z.ltb_spec dt2 15), (Z.ltb_spec dt2 30); lia.
Qed.

Lemma calculateAcceleration_antitone_witness :
  calculateAcceleration 29 <= calculateAcceleration 14.
Proof. apply (calculateAcceleration_antitone 14 29). lia. Defined.

Lemma elapsed_across_wrap since d :
  is_uint32 since -> is_uint32 d -> elapsed since (to_uint32 (since + d)) = d.
Proof.
  unfold is_uint32, elapsed, to_uint32. intros Hs Hd.
  rewrite Zminus_mod_idemp_l.
  replace (since + d - since) with d by lia. apply Z.mod_small. lia.
Qed.

(** X3. The unsigned subtraction of timestamps gives the true elapsed time
    across a wrap of the 32-bit millisecond clock: a detent that comes [d]
    milliseconds after the previous one, [d] below 2^32, is accelerated by
    the multiplier of [d] even when the clock wrapped in between. *)
Theorem handleEncoderInterrupt_across_wrap (a b : bool) (d : Z) (u : UIManager) :
  is_uint32 (lastEncoderTime u) -> is_uint32 d ->
  let now := to_uint32 (lastEncoderTime u + d) in
  let rawDelta := quadrature (lastEncoderState u) (pinCode a b) in
  let acc := to_int8 (stepAccumulator u + rawDelta) in
  rawDelta <> 0 -> 2 <= Z.abs acc ->
  encoderDelta (handleEncoderInterrupt a b now u)
    = to_int16 (encoderDelta u + (if acc >? 0 then 1 else -1) * calculateAcceleration d)
  /\ lastEncoderTime (handleEncoderInterrupt a b now u) = now.
Proof.
  intros Ht Hd now rawDelta acc Hnz Hge.
  destruct (handleEncoderInterrupt_cases a b now u)
    as [(Hz & _) | [(_ & Hlt & _) | (_ & _ & ->)]].
  - contradiction.
  - fold rawDelta acc in Hlt. lia.
  - members. unfold now at 1. rewrite elapsed_across_wrap by assumption.
    split; reflexivity.
Qed.

Lemma handleEncoderInterrupt_across_wrap_witness :
  let u := handleEncoderInterrupt false true 4294967290
             (begin false false HIGH 4294967290 initial) in
  to_uint32 (4294967290 + 10) = 4
  /\ encoderDelta (handleEncoderInterrupt true true 4 u) = 4.
Proof.
  intros u. split; [reflexivity|].
  destruct (handleEncoderInterrupt_across_wrap true true 10 u) as [H _].
  - vm_compute. split; [discriminate | reflexivity].
  - vm_compute. split; [discriminate | reflexivity].
  - vm_compute. discriminate.
  - vm_compute. discriminate.
  - exact H.
Defined.

(** ** update as a whole *)

Lemma buttonBlock_eq sw now u calls redraw :
  buttonBlock sw now u calls redraw
    = {| after :=
           (if qualifying_press sw now u
            then set_state (toggle (state u)) else fun v => v)
             (if commits sw now u
              then set_lastButtonTime now (set_lastButtonState sw u) else u);
         notified := calls;
         needsRedraw := redraw || qualifying_press sw now u |}.
Proof.
  unfold buttonBlock. rewrite readButton_eq. cbn [snd].
  destruct (qualifying_press sw now u), (commits sw now u), redraw; reflexivity.
Qed.

(** What the rotation block changes and what it leaves. *)
Lemma handleRotation_frame delta u u1 calls redraw :
  handleRotation delta u = Some (u1, calls, redraw) ->
  redraw = negb (delta =? 0)
  /\ state u1 = state u
  /\ lastButtonState u1 = lastButtonState u
  /\ lastButtonTime u1 = lastButtonTime u
  /\ parameterCallback u1 = parameterCallback u
  /\ length (parameters u1) = length (parameters u).
Proof.
  unfold handleRotation. destruct (delta =? 0).
  - intros [= <- _ <-]. repeat split; reflexivity.
  - destruct (state u) eqn:Hs.
    + intros [= <- _ <-]. members. repeat split; auto.
    + destruct (parameterAt _ _); [|discriminate].
      intros [= <- _ <-]. members. rewrite length_insert. repeat split; auto.
Qed.

Lemma qualifying_press_ext sw now u v :
  lastButtonState v = lastButtonState u -> lastButtonTime v = lastButtonTime u ->
  qualifying_press sw now v = qualifying_press sw now u.
Proof. unfold qualifying_press. intros -> ->. reflexivity. Qed.

(** [update] split at its rotation block. *)
Lemma update_outcome sw now u o :
  update sw now u = Some o ->
  exists u1 calls,
    handleRotation (encoderDelta u) (set_encoderDelta 0 u)
      = Some (u1, calls, negb (encoderDelta u =? 0))
    /\ o = buttonBlock sw now u1 calls (negb (encoderDelta u =? 0))
    /\ qualifying_press sw now u1 = qualifying_press sw now u.
Proof.
  rewrite update_eq.
  destruct (handleRotation _ _) as [[[u1 calls] redraw]|] eqn:Hrot; [|discriminate].
  intros [= <-].
  destruct (handleRotation_frame _ _ _ _ _ Hrot) as (-> & _ & Hb & Ht & _).
  exists u1, calls. split; [reflexivity|]. split; [reflexivity|].
  apply qualifying_press_ext; assumption.
Qed.



(** X5. [update] invokes the callback at most once, and not at all in menu
    mode, without pending delta, or when no callback is registered;
    whenever it invokes it, the arguments are the cc and the stored value of
    the selected parameter after the update. *)
Theorem update_callback (sw : bool) (now : Z) (u : UIManager) (o : Outcome) :
  update sw now u = Some o ->
  (length (notified o) <= 1)%nat
  /\ (state u = UI_MENU \/ encoderDelta u = 0 \/ parameterCallback u = false ->
      notified o = [])
  /\ (forall c v, (c, v) ∈ notified o ->
        exists p, parameterAt (currentParamIndex (after o)) (parameters (after o)) = Some p
          /\ c = cc p /\ v = value p).
Proof.
  intros Hup. destruct (update_outcome _ _ _ _ Hup) as (u1 & calls & Hrot & -> & _).
  destruct (buttonBlock_frame sw now u1 calls (negb (encoderDelta u =? 0)))
    as (-> & -> & -> & _).
  unfold handleRotation in Hrot. members.
  destruct (Z.eqb_spec (encoderDelta u) 0) as [Hz|Hnz].
  { injection Hrot as <- <-. split; [simpl; lia|]. split; [reflexivity|].
    intros c v Hin. inversion Hin. }
  destruct (state u) eqn:Hs.
  { injection Hrot as <- <-. split; [simpl; lia|]. split; [reflexivity|].
    intros c v Hin. inversion Hin. }
  destruct (parameterAt _ _) as [p|] eqn:Hp; [|discriminate].
  injection Hrot as <- <-. members.
  split; [destruct (parameterCallback u); simpl; lia|]. split.
  - intros [Hm | [Hz | ->]]; [discriminate | contradiction | reflexivity].
  - intros c v Hin. exists (set_value (edit p (encoderDelta u)) p).
    split.
    + unfold parameterAt in *.
      destruct (Z.ltb_spec (currentParamIndex u) 0); [discriminate|].
      apply list_lookup_insert_eq. now apply lookup_lt_Some in Hp.
    + destruct (parameterCallback u); [|inversion Hin].
      apply list_elem_of_singleton in Hin. injection Hin as -> ->. split; reflexivity.
Qed.

Lemma update_callback_witness :
  exists o, update HIGH 30 (setParameterCallback two_back) = Some o /\ notified o = [].
Proof.
  eexists. split; [reflexivity|].
  destruct (update_callback HIGH 30 (setParameterCallback two_back) _ eq_refl)
    as (_ & H & _).
  apply H. left. reflexivity.
Defined.

Lemma identity_of_insert (ps : list Param) i p v :
  ps !! i = Some p ->
  identity_of <$> <[i := set_value v p]> ps = identity_of <$> ps.
Proof.
  intros Hp. rewrite list_fmap_insert. apply list_insert_id.
  rewrite list_lookup_fmap, Hp. reflexivity.
Qed.

(** The rotation block on the store and the index. *)
Lemma handleRotation_store delta u u1 calls redraw :
  handleRotation delta u = Some (u1, calls, redraw) ->
  (delta = 0 /\ u1 = u)
  \/ (delta <> 0 /\ state u = UI_MENU
      /\ u1 = set_currentParamIndex
                (navigate (paramCount u) (currentParamIndex u) delta) u)
  \/ (delta <> 0 /\ state u = UI_EDIT
      /\ exists p, parameterAt (currentParamIndex u) (parameters u) = Some p
           /\ u1 = set_parameters
                     (<[Z.to_nat (currentParamIndex u)
                        := set_value (edit p delta) p]> (parameters u)) u).
Proof.
  unfold handleRotation. destruct (Z.eqb_spec delta 0) as [Hz|Hnz].
  - intros [= <- _ _]. left. auto.
  - destruct (state u) eqn:Hs.
    + intros [= <- _ _]. right. left. auto.
    + destruct (parameterAt _ _) as [p|] eqn:Hp; [|discriminate].
      intros [= <- _ _]. right. right. eauto.
Qed.

Lemma update_store_frame (sw : bool) (now : Z) (u : UIManager) (o : Outcome) :
  update sw now u = Some o ->
  parameterCallback (after o) = parameterCallback u
  /\ identity_of <$> parameters (after o) = identity_of <$> parameters u
  /\ length (parameters (after o)) = length (parameters u)
  /\ (state u = UI_MENU \/ encoderDelta u = 0 -> parameters (after o) = parameters u)
  /\ (state u = UI_EDIT \/ encoderDelta u = 0 ->
      currentParamIndex (after o) = currentParamIndex u)
  /\ (forall j, j <> Z.to_nat (currentParamIndex u) ->
        parameters (after o) !! j = parameters u !! j).
Proof.
  intros Hup. destruct (update_outcome _ _ _ _ Hup) as (u1 & calls & Hrot & -> & _).
  destruct (buttonBlock_frame sw now u1 calls (negb (encoderDelta u =? 0)))
    as (_ & -> & -> & _).
  assert (Hcb : parameterCallback
                  (after (buttonBlock sw now u1 calls (negb (encoderDelta u =? 0))))
                = parameterCallback u1).
  { destruct (readButton_frame sw now u1) as (_ & _ & Hcb & _).
    rewrite buttonBlock_eq. cbn [after].
    rewrite readButton_eq in Hcb. cbn [snd] in Hcb.
    destruct (qualifying_press sw now u1); members; exact Hcb. }
  rewrite Hcb.
  destruct (handleRotation_store _ _ _ _ _ Hrot)
    as [[Hz ->] | [(Hnz & Hs & ->) | (Hnz & Hs & p & Hp & ->)]]; members.
  - repeat split; auto.
  - repeat split; auto. intros [Hm | Hz]; [congruence | contradiction].
  - apply parameterAt_lookup in Hp as [_ Hp].
    split; [reflexivity|]. split; [now apply identity_of_insert|].
    split; [apply length_insert|]. split; [|split; [reflexivity|]].
    + intros [Hm | Hz]; [congruence | contradiction].
    + intros j Hj. apply list_lookup_insert_ne. congruence.
Qed.

(** X6. [update] never changes the name, cc, minVal or maxVal of a
    parameter, the number of parameters or the registered callback; it
    changes no parameter in menu mode or without pending delta, does not
    move the selection in edit mode or without pending delta, and never
    changes a parameter other than the selected one. *)
Theorem update_frame (sw : bool) (now : Z) (u : UIManager) (o : Outcome) :
  update sw now u = Some o ->
  parameterCallback (after o) = parameterCallback u
  /\ identity_of <$> parameters (after o) = identity_of <$> parameters u
  /\ length (parameters (after o)) = length (parameters u)
  /\ (state u = UI_MENU \/ encoderDelta u = 0 -> parameters (after o) = parameters u)
  /\ (state u = UI_EDIT \/ encoderDelta u = 0 ->
      currentParamIndex (after o) = currentParamIndex u)
  /\ (forall j, j <> Z.to_nat (currentParamIndex u) ->
        parameters (after o) !! j = parameters u !! j).
Proof. exact (update_store_frame sw now u o). Qed.

Lemma update_frame_witness :
  exists o, update HIGH 220 near_maximum = Some o
    /\ parameters (after o) !! 3%nat = Some (mkParameter "Cutoff" 74 64 0 127).
Proof.
  destruct (update HIGH 220 near_maximum) as [o|] eqn:Hup;
    [|vm_compute in Hup; discriminate].
  exists o. split; [reflexivity|].
  destruct (update_frame HIGH 220 near_maximum o Hup) as (_ & _ & _ & _ & _ & H).
  rewrite H; [reflexivity | vm_compute; discriminate].
Defined.

Lemma edit_in_bounds p delta :
  param_uint8 p -> minVal p <= maxVal p -> minVal p <= edit p delta <= maxVal p.
Proof.
  intros (_ & _ & Hlo & Hhi) Hle. unfold is_uint8 in *. rewrite edit_clamp.
  pose proof (clamp_bounds (to_int16 (value p + delta)) _ _ Hle) as Hb.
  rewrite to_uint8_id; [exact Hb | unfold is_uint8; lia].
Qed.

Lemma update_store_bounds (sw : bool) (now : Z) (u : UIManager) (o : Outcome) :
  update sw now u = Some o ->
  Forall param_uint8 (parameters u) ->
  Forall param_uint8 (parameters (after o))
  /\ (store_inv (parameters u) -> store_inv (parameters (after o)))
  /\ (state u = UI_EDIT -> encoderDelta u <> 0 ->
      forall p, parameterAt (currentParamIndex u) (parameters (after o)) = Some p ->
                minVal p <= maxVal p -> in_bounds p).
Proof.
  intros Hup H8. destruct (update_outcome _ _ _ _ Hup) as (u1 & calls & Hrot & -> & _).
  destruct (buttonBlock_frame sw now u1 calls (negb (encoderDelta u =? 0)))
    as (_ & _ & -> & _).
  destruct (handleRotation_store _ _ _ _ _ Hrot)
    as [[Hz ->] | [(Hnz & Hs & ->) | (Hnz & Hs & p & Hp & ->)]]; members.
  - split; [exact H8|]. split; [auto | intros _ Hnz; contradiction].
  - split; [exact H8|]. split; [auto | intros Hs'; congruence].
  - pose proof Hp as Hp0. apply parameterAt_lookup in Hp as [Hi Hp].
    assert (Hp8 : param_uint8 p) by exact (proj1 (Forall_lookup _ _) H8 _ _ Hp).
    assert (Hnew8 : param_uint8 (set_value (edit p (encoderDelta u)) p)).
    { destruct Hp8 as (Hc & Hv & Hlo & Hhi). repeat split; cbn; try apply Hc;
        try apply Hlo; try apply Hhi; unfold edit, to_uint8; Z.div_mod_to_equations; lia. }
    split; [now apply Forall_insert|]. split.
    + intros Hinv. apply Forall_insert; [exact Hinv|].
      pose proof (proj1 (Forall_lookup _ _) Hinv _ _ Hp) as Hb.
      unfold in_bounds in *. cbn. apply edit_in_bounds; [exact Hp8 | lia].
    + intros _ _ q Hq Hle. unfold parameterAt in Hq.
      destruct (Z.ltb_spec (currentParamIndex u) 0); [lia|].
      rewrite list_lookup_insert_eq in Hq by now apply lookup_lt_Some in Hp.
      injection Hq as <-. unfold in_bounds. cbn in *. now apply edit_in_bounds.
Qed.

(** X7. Turning the encoder never pushes a parameter out of its bounds,
    whatever the pending delta, the wrap of the 16-bit sum included: when
    the fields are 8-bit values and minVal <= maxVal, the selected parameter
    is within its bounds after an edit (even if an injection had left it
    outside), so [update] keeps a store whose parameters are all within
    their bounds that way. *)
Theorem update_keeps_bounds (sw : bool) (now : Z) (u : UIManager) (o : Outcome) :
  update sw now u = Some o ->
  Forall param_uint8 (parameters u) ->
  Forall param_uint8 (parameters (after o))
  /\ (store_inv (parameters u) -> store_inv (parameters (after o)))
  /\ (state u = UI_EDIT -> encoderDelta u <> 0 ->
      forall p, parameterAt (currentParamIndex u) (parameters (after o)) = Some p ->
                minVal p <= maxVal p -> in_bounds p).
Proof. exact (update_store_bounds sw now u o). Qed.

Lemma initial_uint8 : Forall param_uint8 (parameters initial).
Proof.
  unfold initial, initialParameters. members.
  repeat (constructor; [unfold param_uint8, is_uint8; cbn; lia|]). constructor.
Qed.

Lemma update_keeps_bounds_witness :
  exists o, update HIGH 220 near_maximum = Some o /\ store_inv (parameters (after o)).
Proof.
  destruct (update HIGH 220 near_maximum) as [o|] eqn:Hup;
    [|vm_compute in Hup; discriminate].
  exists o. split; [reflexivity|].
  destruct (update_keeps_bounds HIGH 220 near_maximum o Hup) as (_ & H & _).
  - vm_compute. repeat (constructor; [repeat split; discriminate|]). constructor.
  - apply H.
    vm_compute. repeat (constructor; [repeat split; discriminate|]). constructor.
Defined.

(** ** The handler against the rest of update *)

(** The handler commutes with every assignment of the polling side. *)
Lemma handleEncoderInterrupt_set_state a b t s u :
  handleEncoderInterrupt a b t (set_state s u)
    = set_state s (handleEncoderInterrupt a b t u).
Proof.
  unfold handleEncoderInterrupt. members.
  destruct (_ =? 0); [reflexivity|]. destruct (_ >=? 2); reflexivity.
Qed.

Lemma handleEncoderInterrupt_set_currentParamIndex a b t i u :
  handleEncoderInterrupt a b t (set_currentParamIndex i u)
    = set_currentParamIndex i (handleEncoderInterrupt a b t u).
Proof.
  unfold handleEncoderInterrupt. members.
  destruct (_ =? 0); [reflexivity|]. destruct (_ >=? 2); reflexivity.
Qed.

Lemma handleEncoderInterrupt_set_parameters a b t ps u :
  handleEncoderInterrupt a b t (set_parameters ps u)
    = set_parameters ps (handleEncoderInterrupt a b t u).
Proof.
  unfold handleEncoderInterrupt. members.
  destruct (_ =? 0); [reflexivity|]. destruct (_ >=? 2); reflexivity.
Qed.

Lemma handleEncoderInterrupt_set_button a b t sw now u :
  handleEncoderInterrupt a b t (set_lastButtonTime now (set_lastButtonState sw u))
    = set_lastButtonTime now (set_lastButtonState sw (handleEncoderInterrupt a b t u)).
Proof.
  unfold handleEncoderInterrupt. members.
  destruct (_ =? 0); [reflexivity|]. destruct (_ >=? 2); reflexivity.
Qed.

Lemma handleRotation_interrupt a b t delta u :
  handleRotation delta (handleEncoderInterrupt a b t u)
    = match handleRotation delta u with
      | None => None
      | Some (u1, calls, redraw) => Some (handleEncoderInterrupt a b t u1, calls, redraw)
      end.
Proof.
  destruct (handleEncoderInterrupt_frame a b t u) as (Hs & Hi & _ & _ & Hc & Hp).
  unfold handleRotation, paramCount. rewrite Hs, Hi, Hp.
  destruct (delta =? 0); [reflexivity|]. destruct (state u).
  - rewrite handleEncoderInterrupt_set_currentParamIndex. reflexivity.
  - destruct (parameterAt _ _); [|reflexivity].
    rewrite handleEncoderInterrupt_set_parameters. members. rewrite Hc. reflexivity.
Qed.

Lemma buttonBlock_interrupt a b t sw now u calls redraw :
  buttonBlock sw now (handleEncoderInterrupt a b t u) calls redraw
    = interrupted a b t (buttonBlock sw now u calls redraw).
Proof.
  destruct (handleEncoderInterrupt_frame a b t u) as (Hs & _ & Hb & Ht & _).
  rewrite !buttonBlock_eq. unfold interrupted. cbn [after notified needsRedraw].
  unfold qualifying_press, commits. rewrite Hs, Hb, Ht.
  destruct (_ && _ && _), (_ && _);
    rewrite ?handleEncoderInterrupt_set_state, ?handleEncoderInterrupt_set_button;
    reflexivity.
Qed.

Lemma finishUpdate_eq sw now delta u :
  finishUpdate sw now delta u
    = match handleRotation delta u with
      | None => None
      | Some (u1, calls, redraw) => Some (buttonBlock sw now u1 calls redraw)
      end.
Proof.
  unfold finishUpdate, buttonBlock.
  destruct (handleRotation _ _) as [[[u1 calls] redraw]|]; [|reflexivity].
  rewrite readButton_eq. cbn [snd].
  destruct (qualifying_press sw now u1); reflexivity.
Qed.

(** X8. [update] is its critical section followed by the rest, and a
    handler call that arrives right after the critical section commutes with
    the rest: the callback invocations and the redraw flag are the same, and
    the manager is the one the handler would leave after [update]. No
    quarter-step is lost or applied twice for arriving while [update] runs. *)
Theorem finishUpdate_interrupt (a b sw : bool) (t now delta : Z) (u : UIManager) :
  update sw now u = finishUpdate sw now (drainEncoderDelta u).1 (drainEncoderDelta u).2
  /\ finishUpdate sw now delta (handleEncoderInterrupt a b t u)
     = interrupted a b t <$> finishUpdate sw now delta u.
Proof.
  split; [reflexivity|].
  rewrite !finishUpdate_eq, handleRotation_interrupt.
  destruct (handleRotation delta u) as [[[u1 calls] redraw]|]; [|reflexivity].
  cbn [fmap option_fmap option_map]. f_equal. apply buttonBlock_interrupt.
Qed.

(** ** Bounce and bursts on the encoder lines *)

Lemma quadrature_antisym p c : quadrature c p = - quadrature p c.
Proof.
  destruct (decide (0 <= p < 4 /\ 0 <= c < 4)) as [[Hp Hc]|Hout].
  - destruct (small_code_cases p Hp) as [-> | [-> | [-> | ->]]];
      destruct (small_code_cases c Hc) as [-> | [-> | [-> | ->]]]; reflexivity.
  - rewrite (quadrature_outside p c) by exact Hout.
    rewrite (quadrature_outside c p) by tauto. reflexivity.
Qed.

Lemma set_lastEncoderState_id u : set_lastEncoderState (lastEncoderState u) u = u.
Proof. destruct u; reflexivity. Qed.

(** X9. A spurious interrupt, or a bounce from the recorded pin code to
    another code and back that emits no detent on the way out, leaves the
    whole manager as it was: no detent is emitted, the half-detent
    accumulator and the detent timestamp are restored. *)
Theorem handleEncoderInterrupt_bounce (a0 b0 a b : bool) (t1 t2 : Z) (u : UIManager) :
  lastEncoderState u = pinCode a0 b0 ->
  -1 <= stepAccumulator u <= 1 ->
  Z.abs (stepAccumulator u + quadrature (pinCode a0 b0) (pinCode a b)) < 2 ->
  handleEncoderInterrupt a0 b0 t1 u = u
  /\ handleEncoderInterrupt a0 b0 t2 (handleEncoderInterrupt a b t1 u) = u.
Proof.
  intros Hcode Hacc Hquiet. split.
  - destruct (handleEncoderInterrupt_cases a0 b0 t1 u) as [(_ & ->) | [(Hnz & _) | (Hnz & _)]].
    + rewrite <- Hcode. apply set_lastEncoderState_id.
    + rewrite Hcode in Hnz. exfalso. apply Hnz.
      pose proof (quadrature_antisym (pinCode a0 b0) (pinCode a0 b0)). lia.
    + rewrite Hcode in Hnz. exfalso. apply Hnz.
      pose proof (quadrature_antisym (pinCode a0 b0) (pinCode a0 b0)). lia.
  - pose proof (quadrature_range (pinCode a0 b0) (pinCode a b)) as Hr.
    pose proof (quadrature_antisym (pinCode a0 b0) (pinCode a b)) as Hanti.
    destruct (handleEncoderInterrupt_cases a b t1 u)
      as [(Hz & ->) | [(Hnz & Hlt & ->) | (Hnz & Hge & _)]]; rewrite Hcode in *.
    + destruct (handleEncoderInterrupt_cases a0 b0 t2
                  (set_lastEncoderState (pinCode a b) u))
        as [(_ & ->) | [(Hnz & _) | (Hnz & _)]]; members.
      * destruct u; cbn in *; subst; reflexivity.
      * exfalso. lia.
      * exfalso. lia.
    + rewrite to_int8_id in Hlt |- * by lia.
      destruct (handleEncoderInterrupt_cases a0 b0 t2
                  (set_stepAccumulator
                     (stepAccumulator u + quadrature (pinCode a0 b0) (pinCode a b))
                     (set_lastEncoderState (pinCode a b) u)))
        as [(Hz & _) | [(_ & _ & ->) | (_ & Hge & _)]]; members.
      * exfalso. lia.
      * rewrite Hanti.
        replace (stepAccumulator u + quadrature (pinCode a0 b0) (pinCode a b)
                 + - quadrature (pinCode a0 b0) (pinCode a b))
          with (stepAccumulator u) by lia.
        rewrite to_int8_id by lia.
        destruct u; cbn in *; subst; reflexivity.
      * exfalso. rewrite Hanti in Hge.
        replace (stepAccumulator u + quadrature (pinCode a0 b0) (pinCode a b)
                 + - quadrature (pinCode a0 b0) (pinCode a b))
          with (stepAccumulator u) in Hge by lia.
        rewrite to_int8_id in Hge by lia. lia.
    + exfalso. rewrite to_int8_id in Hge by lia. lia.
Qed.

Lemma handleEncoderInterrupt_bounce_witness :
  handleEncoderInterrupt false false 7 (handleEncoderInterrupt false true 5 started)
    = started.
Proof.
  destruct (handleEncoderInterrupt_bounce false false false true 5 7 started) as [_ H].
  - reflexivity.
  - vm_compute. split; discriminate.
  - vm_compute. reflexivity.
  - exact H.
Defined.

Lemma addition_range a b now u : -4 <= addition a b now u <= 4.
Proof.
  unfold addition. destruct (_ || _); [lia|].
  destruct (calculateAcceleration_cases (elapsed (lastEncoderTime u) now))
    as [-> | [-> | ->]]; destruct (_ >? 0); lia.
Qed.

Lemma additions_total_range ins u :
  - (4 * Z.of_nat (length ins)) <= total (additions ins u) <= 4 * Z.of_nat (length ins).
Proof.
  revert u. induction ins as [|[[a b] now] ins IH]; intros u.
  - cbn. lia.
  - unfold total in *. cbn [additions foldr length].
    pose proof (addition_range a b now u).
    specialize (IH (handleEncoderInterrupt a b now u)). lia.
Qed.

(** X10. Each handler call adds between -4 and 4 to the pending delta, so
    after a drain a burst of up to 8191 handler calls never wraps the 16-bit
    accumulator: the pending delta is exactly the sum of the additions. *)
Theorem interrupts_run_exact (ins : list PinSample) (u : UIManager) :
  encoderDelta u = 0 -> Z.of_nat (length ins) <= 8191 ->
  encoderDelta (interrupts_run ins u) = total (additions ins u)
  /\ Z.abs (encoderDelta (interrupts_run ins u)) <= 4 * Z.of_nat (length ins).
Proof.
  intros Hz Hlen. pose proof (additions_total_range ins u) as Hr.
  assert (Heq : encoderDelta (interrupts_run ins u) = total (additions ins u)).
  { rewrite interrupts_run_delta by (rewrite Hz; unfold is_int16; lia).
    rewrite Hz, Z.add_0_l. apply to_int16_id. unfold is_int16. lia. }
  split; [exact Heq | lia].
Qed.

Lemma interrupts_run_exact_witness :
  encoderDelta (interrupts_run (clockwise_turns 3 0) started) = 24.
Proof.
  destruct (interrupts_run_exact (clockwise_turns 3 0) started) as [H _].
  - reflexivity.
  - vm_compute. discriminate.
  - rewrite H. vm_compute. reflexivity.
Defined.

(** ** The held button *)

Lemma readButton_no_edge now u :
  lastButtonState u = LOW -> readButton LOW now u = (false, u).
Proof.
  intros Hl. rewrite readButton_eq. unfold qualifying_press, commits.
  rewrite Hl. reflexivity.
Qed.

(** X11. A press is reported once: right after a poll that returns true the
    next poll returns false whatever it reads, and as long as the button
    stays down no poll returns true or changes the manager, however many
    polls and however much time. *)
Theorem readButton_held (sw : bool) (now : Z) (u : UIManager) (polls : list (bool * Z)) :
  (readButton sw now u).1 = true ->
  let u' := (readButton sw now u).2 in
  (forall sw' now', (readButton sw' now' u').1 = false)
  /\ (Forall (fun poll => poll.1 = LOW) polls ->
      readButton_run polls u' = (replicate (length polls) false, u')).
Proof.
  intros Hpress u'.
  assert (Hlow : lastButtonState u' = LOW).
  { subst u'. rewrite readButton_eq in Hpress |- *. cbn [fst snd] in *.
    unfold qualifying_press, commits in *.
    destruct sw, (lastButtonState u), (100 <? elapsed (lastButtonTime u) now);
      try discriminate. reflexivity. }
  split.
  - intros sw' now'. rewrite readButton_eq. cbn [fst].
    unfold qualifying_press. rewrite Hlow. destruct sw'; reflexivity.
  - clearbody u'. clear Hpress. induction 1 as [|[sw' now'] polls Hsw _ IH]; [reflexivity|].
    cbn in Hsw. subst sw'. cbn [readButton_run length replicate].
    rewrite readButton_no_edge by exact Hlow. rewrite IH. reflexivity.
Qed.

Lemma readButton_held_witness :
  readButton_run [ (LOW, 300); (LOW, 5000); (LOW, 4294967295) ] (readButton LOW 101 started).2
    = ([ false; false; false ], (readButton LOW 101 started).2).
Proof.
  destruct (readButton_held LOW 101 started
              [ (LOW, 300); (LOW, 5000); (LOW, 4294967295) ]) as [_ H].
  - reflexivity.
  - apply H. repeat constructor.
Defined.

(** ** External injection: reading back, overwriting, reordering *)

Lemma updateParameterValue_eq c v u :
  updateParameterValue c v u
    = set_parameters
        (match findByCC c (parameters u) with
         | Some (i, p) => <[i := set_value v p]> (parameters u)
         | None => parameters u
         end) u.
Proof. rewrite <- updateParameterValue_parameters. reflexivity. Qed.

(** The linear scan after a write: the same index, with the written
    parameter if it is the one found. *)
Lemma findByCC_insert c (ps : list Param) i p v :
  ps !! i = Some p ->
  findByCC c (<[i := set_value v p]> ps)
    = (fun '(j, q) => (j, if decide (j = i) then set_value v q else q))
        <$> findByCC c ps.
Proof.
  intros Hp. assert (Hi : (i < length ps)%nat) by now apply lookup_lt_Some in Hp.
  unfold findByCC. destruct (list_find _ ps) as [[j q]|] eqn:Hfind.
  - apply list_find_Some in Hfind as (Hj & Hc & Hbefore).
    cbn. apply list_find_Some. split; [|split].
    + destruct (decide (j = i)) as [->|Hne].
      * rewrite list_lookup_insert_eq by exact Hi. congruence.
      * rewrite list_lookup_insert_ne by congruence. exact Hj.
    + destruct (decide (j = i)); exact Hc.
    + intros k y Hk Hlt. destruct (decide (k = i)) as [->|Hne].
      * rewrite list_lookup_insert_eq in Hk by exact Hi. injection Hk as <-.
        cbn. exact (Hbefore i p Hp Hlt).
      * rewrite list_lookup_insert_ne in Hk by congruence. exact (Hbefore k y Hk Hlt).
  - apply list_find_None in Hfind. cbn. apply list_find_None.
    apply Forall_insert; [exact Hfind|].
    cbn. exact (proj1 (Forall_lookup _ _) Hfind i p Hp).
Qed.

(** X12. A value written by cc reads back: when the store has a parameter
    with that cc, [getParameter] at its index returns that parameter with
    the written value, the scan by cc finds it at the same index, and
    [getParameter] at any other index inside the array returns what it
    returned before. *)
Theorem updateParameterValue_getParameter (cc' value' : Z) (u : UIManager)
    (i : nat) (p : Param) :
  findByCC cc' (parameters u) = Some (i, p) ->
  let u' := updateParameterValue cc' value' u in
  getParameter (Z.of_nat i) u' = Some (set_value value' p)
  /\ findByCC cc' (parameters u') = Some (i, set_value value' p)
  /\ (forall j, j <> i -> (j < length (parameters u))%nat ->
        getParameter (Z.of_nat j) u' = getParameter (Z.of_nat j) u).
Proof.
  intros Hfind u'. subst u'. rewrite updateParameterValue_eq, Hfind.
  assert (Hp : parameters u !! i = Some p).
  { unfold findByCC in Hfind. now apply list_find_Some in Hfind as (Hp & _). }
  assert (Hi : (i < length (parameters u))%nat) by now apply lookup_lt_Some in Hp.
  unfold getParameter, parameterAt, paramCount. members. rewrite length_insert.
  split; [|split].
  - destruct (Z.geb_spec (Z.of_nat i) (Z.of_nat (length (parameters u)))); [lia|].
    destruct (Z.ltb_spec (Z.of_nat i) 0); [lia|].
    rewrite Nat2Z.id. now apply list_lookup_insert_eq.
  - rewrite findByCC_insert by exact Hp. rewrite Hfind. cbn.
    destruct (decide (i = i)); [reflexivity | contradiction].
  - intros j Hne Hj.
    destruct (Z.geb_spec (Z.of_nat j) (Z.of_nat (length (parameters u)))); [lia|].
    destruct (Z.ltb_spec (Z.of_nat j) 0); [lia|].
    rewrite Nat2Z.id. apply list_lookup_insert_ne. congruence.
Qed.

Lemma updateParameterValue_getParameter_witness :
  getParameter 3 (updateParameterValue 74 100 initial)
    = Some (mkParameter "Cutoff" 74 100 0 127).
Proof.
  destruct (updateParameterValue_getParameter 74 100 initial 3
              (mkParameter "Cutoff" 74 64 0 127)) as [H _].
  - reflexivity.
  - exact H.
Defined.

(** X13. Writes by cc compose as writes to a map: a second write to the
    same cc overwrites the first, and writes to two different cc values give
    the same manager in either order. *)
Theorem updateParameterValue_compose (c1 c2 v1 v2 : Z) (u : UIManager) :
  updateParameterValue c1 v2 (updateParameterValue c1 v1 u) = updateParameterValue c1 v2 u
  /\ (c1 <> c2 ->
      updateParameterValue c1 v1 (updateParameterValue c2 v2 u)
        = updateParameterValue c2 v2 (updateParameterValue c1 v1 u)).
Proof.
  split.
  - rewrite !updateParameterValue_eq. members.
    destruct (findByCC c1 (parameters u)) as [[i p]|] eqn:Hfind.
    + assert (Hp : parameters u !! i = Some p).
      { unfold findByCC in Hfind. now apply list_find_Some in Hfind as (Hp & _). }
      rewrite findByCC_insert by exact Hp. rewrite Hfind. cbn.
      destruct (decide (i = i)); [|contradiction].
      rewrite list_insert_insert_eq. reflexivity.
    + rewrite Hfind. reflexivity.
  - intros Hne. rewrite !updateParameterValue_eq. members.
    destruct (findByCC c1 (parameters u)) as [[i p]|] eqn:Hf1;
      destruct (findByCC c2 (parameters u)) as [[j q]|] eqn:Hf2;
      rewrite ?Hf1, ?Hf2.
    + assert (Hp : parameters u !! i = Some p /\ cc p = c1).
      { unfold findByCC in Hf1. apply list_find_Some in Hf1 as (Hp & Hc & _). auto. }
      assert (Hq : parameters u !! j = Some q /\ cc q = c2).
      { unfold findByCC in Hf2. apply list_find_Some in Hf2 as (Hq & Hc & _). auto. }
      destruct Hp as [Hp Hcp], Hq as [Hq Hcq].
      assert (Hij : i <> j) by (intros ->; congruence).
      rewrite !findByCC_insert by assumption. rewrite Hf1, Hf2. cbn.
      destruct (decide (i = j)); [contradiction|].
      destruct (decide (j = i)); [congruence|].
      rewrite list_insert_insert_ne by exact Hij. reflexivity.
    + assert (Hp : parameters u !! i = Some p).
      { unfold findByCC in Hf1. now apply list_find_Some in Hf1 as (Hp & _). }
      rewrite findByCC_insert by exact Hp. rewrite Hf2. reflexivity.
    + assert (Hq : parameters u !! j = Some q).
      { unfold findByCC in Hf2. now apply list_find_Some in Hf2 as (Hq & _). }
      rewrite findByCC_insert by exact Hq. rewrite Hf1. reflexivity.
    + reflexivity.
Qed.

Lemma updateParameterValue_compose_witness :
  updateParameterValue 7 1 (updateParameterValue 74 2 initial)
    = updateParameterValue 74 2 (updateParameterValue 7 1 initial).
Proof.
  destruct (updateParameterValue_compose 7 74 1 2 initial) as [_ H].
  apply H. discriminate.
Defined.

(** ** Menu navigation back and forth *)

(** X14. In the menu a step forward followed by a step back, or a step
    back followed by a step forward, returns to the same index, across the
    two ends of the list as well. *)
Theorem navigate_back_and_forth (count index : Z) :
  0 < count <= 255 -> 0 <= index < count ->
  navigate count (navigate count index 1) (-1) = index
  /\ navigate count (navigate count index (-1)) 1 = index.
Proof.
  intros Hc Hi.
  assert (H1 : is_int16 1) by (unfold is_int16; lia).
  assert (Hm1 : is_int16 (-1)) by (unfold is_int16; lia).
  destruct (navigate_cases count index 1 Hc Hi H1) as (_ & Hin & Hover & _).
  destruct (navigate_cases count index (-1) Hc Hi Hm1) as (Hneg & Hin' & _ & _).
  split.
  - destruct (Z_lt_le_dec (index + 1) count).
    + rewrite Hin by lia.
      destruct (navigate_cases count (index + 1) (-1) Hc ltac:(lia) Hm1) as (_ & H & _).
      rewrite H by lia. lia.
    + rewrite Hover by lia.
      destruct (navigate_cases count 0 (-1) Hc ltac:(lia) Hm1) as (H & _).
      rewrite H by lia. lia.
  - destruct (Z_lt_le_dec (index + -1) 0).
    + rewrite Hneg by lia.
      destruct (navigate_cases count (count - 1) 1 Hc ltac:(lia) H1) as (_ & _ & H & _).
      rewrite H by lia. lia.
    + rewrite Hin' by lia.
      destruct (navigate_cases count (index + -1) 1 Hc ltac:(lia) H1) as (_ & H & _).
      rewrite H by lia. lia.
Qed.

Lemma navigate_back_and_forth_witness :
  navigate 22 (navigate 22 21 1) (-1) = 21 /\ navigate 22 (navigate 22 0 (-1)) 1 = 0.
Proof.
  split.
  - apply (navigate_back_and_forth 22 21); lia.
  - apply (navigate_back_and_forth 22 0); lia.
Defined.

(** ** Every reachable manager *)

Lemma polled_cases sw now u :
  (exists o, update sw now u = Some o /\ polled sw now u = after o)
  \/ (update sw now u = None /\ polled sw now u = u).
Proof. unfold polled. destruct (update sw now u) as [o|]; eauto. Qed.

Lemma apply_op_inv u op : ui_inv u -> ui_inv (apply_op u op).
Proof.
  intros Hinv. destruct op as [a b sw now | a b now | sw now | c v |]; cbn [apply_op].
  - now apply begin_inv.
  - now apply handleEncoderInterrupt_inv.
  - destruct (update_defined sw now u Hinv) as (o & Hup & Ho).
    unfold polled. rewrite Hup. exact Ho.
  - now apply updateParameterValue_inv.
  - destruct Hinv. constructor; assumption.
Qed.

Lemma apply_op_identity u op :
  identity_of <$> parameters (apply_op u op) = identity_of <$> parameters u.
Proof.
  destruct op as [a b sw now | a b now | sw now | c v |]; cbn [apply_op].
  - reflexivity.
  - destruct (handleEncoderInterrupt_frame a b now u) as (_ & _ & _ & _ & _ & ->).
    reflexivity.
  - destruct (polled_cases sw now u) as [(o & Hup & ->) | (_ & ->)]; [|reflexivity].
    now destruct (update_store_frame sw now u o Hup) as (_ & H & _).
  - rewrite updateParameterValue_parameters.
    destruct (findByCC c (parameters u)) as [[i p]|] eqn:Hfind; [|reflexivity].
    apply identity_of_insert.
    unfold findByCC in Hfind. now apply list_find_Some in Hfind as (Hp & _).
  - reflexivity.
Qed.

(** X15. From the initial manager, after any sequence of [begin],
    interrupts, [update], [updateParameterValue] and [setParameterCallback]
    in any order and with any readings, the selected index is inside the
    array, the encoder code and the half-detent accumulator are in range,
    the 22 parameters keep their names, cc numbers and bounds, [update] is
    defined (it never reads outside the array) and [getParameter] returns a
    parameter for every index. *)
Theorem run_ops_invariant (ops : list Op) :
  let u := run_ops ops initial in
  ui_inv u
  /\ identity_of <$> parameters u = identity_of <$> initialParameters
  /\ getParameterCount u = 22
  /\ (forall sw now, exists o, update sw now u = Some o)
  /\ (forall index, 0 <= index -> exists p, getParameter index u = Some p).
Proof.
  intros u.
  assert (H : ui_inv u
              /\ identity_of <$> parameters u = identity_of <$> initialParameters).
  { subst u. unfold run_ops.
    assert (H0 : ui_inv initial
                 /\ identity_of <$> parameters initial = identity_of <$> initialParameters)
      by (split; [exact initial_inv | reflexivity]).
    revert H0. generalize initial as v.
    induction ops as [|op ops IH]; intros v [Hinv Hid]; [auto|].
    cbn [foldl]. apply IH. split; [now apply apply_op_inv|].
    rewrite apply_op_identity. exact Hid. }
  destruct H as [Hinv Hid].
  assert (Hcount : getParameterCount u = 22).
  { unfold getParameterCount, paramCount.
    rewrite <- (length_fmap identity_of), Hid. reflexivity. }
  split; [exact Hinv|]. split; [exact Hid|]. split; [exact Hcount|]. split.
  - intros sw now. destruct (update_defined sw now u Hinv) as (o & Hup & _). eauto.
  - intros index Hi. unfold getParameter.
    apply parameterAt_in_range. unfold getParameterCount in Hcount.
    destruct (Z.geb_spec index (paramCount u)); unfold paramCount in *; lia.
Qed.

Lemma apply_op_bounds u op :
  is_injection op = false ->
  Forall param_uint8 (parameters u) /\ store_inv (parameters u) ->
  Forall param_uint8 (parameters (apply_op u op))
  /\ store_inv (parameters (apply_op u op)).
Proof.
  intros Hop [H8 Hb].
  destruct op as [a b sw now | a b now | sw now | c v |]; cbn [apply_op];
    try discriminate.
  - auto.
  - destruct (handleEncoderInterrupt_frame a b now u) as (_ & _ & _ & _ & _ & ->). auto.
  - destruct (polled_cases sw now u) as [(o & Hup & ->) | (_ & ->)]; [|auto].
    destruct (update_store_bounds sw now u o Hup H8) as (H8' & Hb' & _). auto.
  - auto.
Qed.

(** X16. Without external injection the store never leaves its bounds:
    from the initial manager, after any sequence of [begin], interrupts,
    [update] and [setParameterCallback] with any readings, every parameter
    satisfies minVal <= value <= maxVal. *)
Theorem run_ops_bounds (ops : list Op) :
  Forall (fun op => is_injection op = false) ops ->
  store_inv (parameters (run_ops ops initial)).
Proof.
  intros Hops. unfold run_ops.
  assert (H0 : Forall param_uint8 (parameters initial) /\ store_inv (parameters initial))
    by (split; [exact initial_uint8 | exact initial_store_inv]).
  revert H0. generalize initial as v.
  induction Hops as [|op ops Hop _ IH]; intros v H0; [apply H0|].
  cbn [foldl]. apply IH. now apply apply_op_bounds.
Qed.

Lemma run_ops_bounds_witness :
  store_inv
    (parameters
       (run_ops [ OpBegin false false HIGH 0; OpUpdate LOW 101;
                  OpInterrupt false true 150; OpInterrupt true true 150;
                  OpInterrupt true false 150; OpInterrupt false false 150;
                  OpUpdate HIGH 160 ] initial)).
Proof. apply run_ops_bounds. repeat constructor. Defined.

(** ** Debounce window across a clock wrap, and the direction of an edit *)

(** X17. The debounce window is measured correctly across a wrap of the
    32-bit millisecond clock: a change of the button level read [d]
    milliseconds after the last committed transition, [d] below 2^32, is
    committed exactly when [d] exceeds 100, and reported exactly when it is
    moreover a press. *)
Theorem readButton_across_wrap (sw : bool) (d : Z) (u : UIManager) :
  is_uint32 (lastButtonTime u) -> is_uint32 d -> sw <> lastButtonState u ->
  let now := to_uint32 (lastButtonTime u + d) in
  readButton sw now u
    = if 100 <? d
      then (negb sw, set_lastButtonTime now (set_lastButtonState sw u))
      else (false, u).
Proof.
  intros Ht Hd Hedge now. rewrite readButton_eq.
  unfold qualifying_press, commits, LOW, HIGH. subst now.
  rewrite elapsed_across_wrap by assumption.
  destruct sw, (lastButtonState u), (100 <? d); try contradiction; reflexivity.
Qed.

Lemma readButton_across_wrap_witness :
  let u := begin false false HIGH 4294967200 initial in
  to_uint32 (4294967200 + 101) = 5
  /\ readButton LOW 5 u = (true, set_lastButtonTime 5 (set_lastButtonState LOW u)).
Proof.
  intros u. split; [reflexivity|].
  apply (readButton_across_wrap LOW 101 u).
  - vm_compute. split; [discriminate | reflexivity].
  - vm_compute. split; [discriminate | reflexivity].
  - discriminate.
Defined.

(** X18. Without wrap of the 16-bit sum an edit moves a value that is
    within its bounds in the direction of the rotation and never further
    than the delta: a positive delta gives a value between the old value and
    old value + delta, a negative delta one between old value + delta and
    the old value, and a parameter at the bound in the direction of the
    rotation keeps its value. *)
Theorem edit_direction (p : Param) (delta : Z) :
  param_uint8 p -> in_bounds p -> is_int16 delta -> value p + delta <= 32767 ->
  (0 < delta -> value p <= edit p delta <= value p + delta)
  /\ (delta < 0 -> value p + delta <= edit p delta <= value p)
  /\ (0 < delta -> value p = maxVal p -> edit p delta = value p)
  /\ (delta < 0 -> value p = minVal p -> edit p delta = value p).
Proof.
  intros H8 Hb Hd Hsum. rewrite edit_exact by assumption.
  unfold in_bounds in Hb. unfold clamp.
  destruct (Z.ltb_spec (value p + delta) (minVal p));
    destruct (Z.gtb_spec (value p + delta) (maxVal p)); lia.
Qed.

Lemma edit_direction_witness :
  edit (mkParameter "Dist Mode" 77 3 0 4) 2 = 4
  /\ edit (mkParameter "Dist Mode" 77 4 0 4) 8 = 4.
Proof.
  split.
  - reflexivity.
  - destruct (edit_direction (mkParameter "Dist Mode" 77 4 0 4) 8) as (_ & _ & H & _).
    + unfold param_uint8, is_uint8. cbn. lia.
    + unfold in_bounds. cbn. lia.
    + unfold is_int16. lia.
    + cbn. lia.
    + apply H; [lia | reflexivity].
Defined.
